(** * An in-memory task store behind a REST handler

    Shallow embedding of package [task] (internal/task/model.go and
    internal/task/handler.go): the [Task] record, the [inMemory] manager
    with its six operations, the [Filter] and [Sort] helpers, and the
    request dispatcher [RestAPI] with its five handlers.

    Conventions of the embedding.
    - Go's [int] and [int64] are 64-bit two's-complement integers; they
      are values of [Z], and the one arithmetic operation of the package
      ([m.nextID++]) wraps as Go's does ([int_wrap]).
    - A [[]*Task] is a [slice]: either the nil slice or a slice with a
      backing array.  The two differ only in what [encoding/json] prints
      for them, and both have the elements [elems].
    - Tasks are values.  The pointers the manager hands out are not
      written through by any code of the package itself.
    - The handlers run against the package variable [tasks]; here the
      manager is passed in and the new manager is returned, together
      with the list of manager methods that were called. *)

From stdpp Require Import prelude strings gmap sorting.
From Stdlib Require Import ZArith Lia Permutation Ascii.

Local Open Scope Z_scope.

(** ** Machine integers *)

Definition int_max : Z := 2 ^ 63 - 1.
Definition int_min : Z := - 2 ^ 63.

(** The value a 64-bit signed register holds after computing [z]. *)
Definition int_wrap (z : Z) : Z := (z + 2 ^ 63) `mod` 2 ^ 64 - 2 ^ 63.

Definition in_int (z : Z) : bool := (int_min <=? z) && (z <=? int_max).

(** ** model.go: the data model *)

Inductive error : Type :=
  | ErrCreateEmptyTitle          (* "Create: empty title" *)
  | ErrUpdateUnknown             (* "Update: unknown task" *)
  | ErrDeleteUnknown             (* "Delete: unknown task" *)
  | ErrDecode                    (* an error of json.Decoder.Decode *)
  | ErrAtoi                      (* an error of strconv.Atoi *)
  | ErrInconsistentIDs           (* "inconsistent task IDs" *)
  | ErrNoSuchTask (id : Z)       (* "task id: %d doesn't exists" *)
  | ErrNotImplemented (method : string). (* "%s doesn't implemented" *)

(** The fields hold what their Go types hold: [ID] an [int], [Date] an
    [int64], [Priority] a [byte].  Nothing below depends on the ranges. *)
Record Task : Type := mkTask {
  ID : Z;
  Title : string;
  Date : Z;
  Note : string;
  Priority : Z;
  Done : bool
}.

Global Instance Task_eq_dec : EqDecision Task.
Proof. solve_decision. Defined.

Global Instance error_eq_dec : EqDecision error.
Proof. solve_decision. Defined.

(** A slice of tasks.  [var r []*Task] is [nil_slice]; everything
    [append] returns after adding an element, and every reslice of a
    slice that has a backing array, is a [mk_slice]. *)
Inductive slice : Type :=
  | nil_slice
  | mk_slice (ts : list Task).

Definition elems (s : slice) : list Task :=
  match s with
  | nil_slice => []
  | mk_slice ts => ts
  end.

(** [append(s, t)] *)
Definition append (s : slice) (t : Task) : slice := mk_slice (elems s ++ [t]).

Definition Sort : Type := Task -> Task -> bool.
Definition Filter : Type := Task -> bool.

(** [Filter.Tasks]: the range loop appends to a slice that starts nil. *)
Definition Filter_Tasks (f : Filter) (tasks : slice) : slice :=
  foldl (fun r t => if f t then append r t else r) nil_slice (elems tasks).

(** ** model.go: the manager *)

Record inMemory : Type := mkInMemory {
  tasks : slice;
  nextID : Z
}.

Definition NewManager : inMemory := {| tasks := nil_slice; nextID := 0 |}.

(** The range loops of [Find], [Update] and [Delete] stop at the first
    task whose ID is the one looked for; [first_with_ID] is that index
    and task. *)
Definition first_with_ID (id : Z) (ts : list Task) : option (nat * Task) :=
  list_find (fun t => ID t = id) ts.

Definition Create (m : inMemory) (title : string) : inMemory * (error + Task) :=
  if decide (title = "") then (m, inl ErrCreateEmptyTitle)
  else
    let t := {| ID := nextID m; Title := title; Date := 0; Note := "";
                Priority := 0; Done := false |} in
    ({| tasks := append (tasks m) t; nextID := int_wrap (nextID m + 1) |},
     inr t).

Definition Find (m : inMemory) (id : Z) : option Task :=
  snd <$> first_with_ID id (elems (tasks m)).

Definition All (m : inMemory) : slice := tasks m.

Definition Update (m : inMemory) (task : Task) : inMemory * option error :=
  match first_with_ID (ID task) (elems (tasks m)) with
  | Some (i, _) =>
      ({| tasks := mk_slice (<[i := task]> (elems (tasks m)));
          nextID := nextID m |}, None)
  | None => (m, Some ErrUpdateUnknown)
  end.

(** [append(m.tasks[:i], m.tasks[i+1:]...)] becomes the new [m.tasks];
    the slot past its end, which the old slice header still reaches, is
    set to nil and is not an element any more. *)
Definition Delete (m : inMemory) (id : Z) : inMemory * option error :=
  match first_with_ID id (elems (tasks m)) with
  | Some (i, _) =>
      ({| tasks := mk_slice (take i (elems (tasks m))
                               ++ drop (S i) (elems (tasks m)));
          nextID := nextID m |}, None)
  | None => (m, Some ErrDeleteUnknown)
  end.

Definition Count (m : inMemory) : Z := Z.of_nat (length (elems (tasks m))).

(** ** Sequences of manager calls *)

Inductive op : Type :=
  | OpCreate (title : string)
  | OpFind (id : Z)
  | OpAll
  | OpUpdate (task : Task)
  | OpDelete (id : Z)
  | OpCount.

Inductive outcome : Type :=
  | OutCreate (r : error + Task)
  | OutFind (r : option Task)
  | OutAll (r : slice)
  | OutUpdate (r : option error)
  | OutDelete (r : option error)
  | OutCount (r : Z).

Definition step (m : inMemory) (o : op) : inMemory * outcome :=
  match o with
  | OpCreate title => let '(m', r) := Create m title in (m', OutCreate r)
  | OpFind id => (m, OutFind (Find m id))
  | OpAll => (m, OutAll (All m))
  | OpUpdate task => let '(m', r) := Update m task in (m', OutUpdate r)
  | OpDelete id => let '(m', r) := Delete m id in (m', OutDelete r)
  | OpCount => (m, OutCount (Count m))
  end.

Fixpoint run (m : inMemory) (ops : list op) : inMemory * list outcome :=
  match ops with
  | [] => (m, [])
  | o :: ops' =>
      let '(m1, r) := step m o in
      let '(m2, rs) := run m1 ops' in
      (m2, r :: rs)
  end.

(** The identifier a call handed out, when it was a successful [Create]. *)
Definition assigned_ID (r : outcome) : option Z :=
  match r with
  | OutCreate (inr t) => Some (ID t)
  | _ => None
  end.

Definition assigned_IDs (rs : list outcome) : list Z := omap assigned_ID rs.

Definition is_create (o : op) : bool :=
  match o with OpCreate _ => true | _ => false end.

Definition create_ok (r : outcome) : bool :=
  match r with OutCreate (inr _) => true | _ => false end.

Definition delete_ok (r : outcome) : bool :=
  match r with OutDelete None => true | _ => false end.

Definition count_of {A} (p : A -> bool) (l : list A) : Z :=
  Z.of_nat (length (filter (fun x => p x = true) l)).

(** ** Go's sort package, as far as [Sort.Tasks] reaches it

    [Sort.Tasks] hands a [sorter] to [sort.Sort] of the standard library,
    which sees the slice only through [Len], [Less] and [Swap].  The
    library is not part of the repository.  Its [sort.Sort] (the one of
    Go 1.19 and later) returns at once when [n <= 1] and otherwise calls
    [pdqsort(data, 0, n, limit)], which on a slice of at most
    [maxInsertion] elements runs [insertionSort(data, a, b)] and returns;
    that function is transcribed below.  Earlier releases differ in the
    threshold, but a slice of two elements is sorted by [insertionSort]
    alone in every release.  What the library does with a longer slice
    is not transcribed: it is the parameter [pdqsort_long] of the section
    that follows. *)

(** [sorter.Less]; the indices [insertionSort] passes are in range. *)
Definition sorter_Less (by_ : Sort) (ts : list Task) (i j : nat) : bool :=
  match ts !! i, ts !! j with
  | Some ti, Some tj => by_ ti tj
  | _, _ => false
  end.

(** [sorter.Swap] *)
Definition sorter_Swap (ts : list Task) (i j : nat) : list Task :=
  match ts !! i, ts !! j with
  | Some ti, Some tj => <[i := tj]> (<[j := ti]> ts)
  | _, _ => ts
  end.

(** [for j := i; j > a && data.Less(j, j-1); j-- { data.Swap(j, j-1) }] *)
Fixpoint insertion_inner (by_ : Sort) (a j : nat) (ts : list Task) : list Task :=
  match j with
  | O => ts
  | S j' =>
      if bool_decide (a < j)%nat && sorter_Less by_ ts j j'
      then insertion_inner by_ a j' (sorter_Swap ts j j')
      else ts
  end.

(** [for i := ...; i < b; i++ { ... }], with [n] iterations left. *)
Fixpoint insertion_outer (by_ : Sort) (a i n : nat) (ts : list Task) : list Task :=
  match n with
  | O => ts
  | S n' => insertion_outer by_ a (S i) n' (insertion_inner by_ a i ts)
  end.

Definition insertionSort (by_ : Sort) (ts : list Task) (a b : nat) : list Task :=
  insertion_outer by_ a (a + 1) (b - (a + 1)) ts.

Definition maxInsertion : nat := 12.

(** ** handler.go: requests and responses *)

Definition Path : string := "/task/".

(** What [json.NewDecoder(r.Body).Decode] makes of the request body: an
    error, or the fields it stored in the target (a [Task] for PUT; for
    POST the target has the [Title] field only). *)
Inductive body : Type :=
  | BadJSON
  | JSON (t : Task).

(** [URLQuery] is [r.URL.Query()], a [url.Values]. *)
Record Request : Type := mkRequest {
  Method : string;
  URLPath : string;
  URLQuery : gmap string (list string);
  Body : body
}.

(** [url.Values.Get] *)
Definition Values_Get (v : gmap string (list string)) (key : string) : string :=
  match v !! key with
  | Some (x :: _) => x
  | _ => ""
  end.

(** [s[n:]] *)
Fixpoint string_from (n : nat) (s : string) : string :=
  match n, s with
  | O, _ => s
  | S n', String _ s' => string_from n' s'
  | S _, EmptyString => EmptyString
  end.

Fixpoint decimal (s : string) (acc : Z) : option Z :=
  match s with
  | EmptyString => Some acc
  | String c s' =>
      let d := Z.of_nat (Ascii.nat_of_ascii c) - 48 in
      if (0 <=? d) && (d <=? 9) then decimal s' (10 * acc + d) else None
  end.

(** [strconv.Atoi] of the standard library: an optional sign, then one or
    more decimal digits, and a value that fits an [int]; anything else is
    an error. *)
Definition Atoi (s : string) : option Z :=
  match s with
  | EmptyString => None
  | String c s' =>
      let '(neg, digits) :=
        if decide (c = "-"%char) then (true, s')
        else if decide (c = "+"%char) then (false, s')
        else (false, s) in
      match digits with
      | EmptyString => None
      | _ =>
          match decimal digits 0 with
          | Some n =>
              let v := if neg then - n else n in
              if in_int v then Some v else None
          | None => None
          end
      end
  end.

(** The dynamic type of a handler's error: [*errRequest], or any other. *)
Inductive herror : Type :=
  | errRequest (e : error) (code : Z)
  | other_error (e : error).

Definition badRequestError (e : error) : herror := errRequest e 400.
Definition notFoundError (e : error) : herror := errRequest e 404.

(** What [encoding/json] prints for a [[]*Task]: [null] for the nil
    slice, an array otherwise. *)
Inductive json_tasks : Type :=
  | json_null
  | json_array (ts : list Task).

Definition encode_tasks (s : slice) : json_tasks :=
  match s with
  | nil_slice => json_null
  | mk_slice ts => json_array ts
  end.

Inductive payload : Type :=
  | no_body
  | task_body (t : Task)                 (* a task object *)
  | tasks_body (ts : json_tasks)         (* an object with the field "tasks" *)
  | error_text (code : Z) (e : error)    (* "%d %v" of an errRequest *)
  | internal_server_error.               (* "internal server error" *)

(** The response as the recorder of the tests sees it; the status is 200
    unless [http.Error] writes another. *)
Record Response : Type := mkResponse {
  StatusCode : Z;
  ContentType : option string;
  Payload : payload
}.

Definition http_Error (msg : payload) (code : Z) : Response :=
  {| StatusCode := code;
     ContentType := Some "text/plain; charset=utf-8";
     Payload := msg |}.

Definition errorHandler (w : Response) (err : option herror) : Response :=
  match err with
  | None => w
  | Some (errRequest e code) => http_Error (error_text code e) code
  | Some (other_error _) => http_Error internal_server_error 500
  end.

Definition filters : gmap string Filter :=
  list_to_map
    [("isDone", fun t => Done t);
     ("isNotDone", fun t => negb (Done t));
     ("isScheduled", fun t => negb (Date t =? 0))].

Definition sorters : gmap string Sort :=
  list_to_map
    [("dateAsc", fun t1 t2 => Date t1 <=? Date t2);
     ("dateDesc", fun t1 t2 => Date t1 >=? Date t2);
     ("priorityAsc", fun t1 t2 => Priority t1 <=? Priority t2);
     ("priorityDesc", fun t1 t2 => Priority t1 >=? Priority t2)].

(** [parseID] *)
Definition parseID (r : Request) : option Z :=
  Atoi (string_from (String.length Path) (URLPath r)).

(** What a handler leaves behind: the error it returns, the body it
    wrote, the manager, and the manager methods it called, in order. *)
Definition handled : Type := option herror * payload * inMemory * list op.

Section Handlers.

(** [sort.Sort] on a slice of more than [maxInsertion] elements. *)
Variable pdqsort_long : Sort -> list Task -> list Task.

(** [sort.Sort] on a [sorter] over [ts] *)
Definition sort_Sort (by_ : Sort) (ts : list Task) : list Task :=
  let n := length ts in
  if (n <=? 1)%nat then ts
  else if (n <=? maxInsertion)%nat then insertionSort by_ ts 0 n
  else pdqsort_long by_ ts.

(** [Sort.Tasks] sorts in place: the slice header stays what it was. *)
Definition Sort_Tasks (s : Sort) (tasks : slice) : slice :=
  match tasks with
  | nil_slice => nil_slice
  | mk_slice ts => mk_slice (sort_Sort s ts)
  end.

Definition create (m : inMemory) (r : Request) : handled :=
  match Body r with
  | BadJSON => (Some (badRequestError ErrDecode), no_body, m, [])
  | JSON req =>
      match Create m (Title req) with
      | (m', inl err) =>
          (Some (badRequestError err), no_body, m', [OpCreate (Title req)])
      | (m', inr _) => (None, no_body, m', [OpCreate (Title req)])
      end
  end.

Definition read (m : inMemory) (r : Request) : handled :=
  match parseID r with
  | None => (Some (badRequestError ErrAtoi), no_body, m, [])
  | Some id =>
      match Find m id with
      | None => (Some (notFoundError (ErrNoSuchTask id)), no_body, m, [OpFind id])
      | Some t => (None, task_body t, m, [OpFind id])
      end
  end.

(** [t := tasks.All()] is the manager's own slice: same backing array,
    same length.  [Filter.Tasks] replaces [t] by a slice of its own;
    without a filter [t] still shares the manager's array when
    [Sort.Tasks] swaps its elements, so the manager's sequence is the
    sorted one afterwards. *)
Definition readAll (m : inMemory) (r : Request) : handled :=
  let t := All m in
  let '(t, shared) :=
    match filters !! Values_Get (URLQuery r) "filter" with
    | Some byFieldEq => (Filter_Tasks byFieldEq t, false)
    | None => (t, true)
    end in
  let '(t, m') :=
    match sorters !! Values_Get (URLQuery r) "sortBy" with
    | Some byField =>
        let t' := Sort_Tasks byField t in
        (t', if shared : bool then {| tasks := t'; nextID := nextID m |} else m)
    | None => (t, m)
    end in
  (None, tasks_body (encode_tasks t), m', [OpAll]).

Definition update (m : inMemory) (r : Request) : handled :=
  match parseID r with
  | None => (Some (badRequestError ErrAtoi), no_body, m, [])
  | Some id =>
      match Body r with
      | BadJSON => (Some (badRequestError ErrDecode), no_body, m, [])
      | JSON t =>
          if decide (ID t <> id)
          then (Some (badRequestError ErrInconsistentIDs), no_body, m, [])
          else
            match Find m id with
            | None =>
                (Some (notFoundError (ErrNoSuchTask id)), no_body, m, [OpFind id])
            | Some _ =>
                let '(m', err) := Update m t in
                (other_error <$> err, no_body, m', [OpFind id; OpUpdate t])
            end
      end
  end.

Definition delete (m : inMemory) (r : Request) : handled :=
  match parseID r with
  | None => (Some (badRequestError ErrAtoi), no_body, m, [])
  | Some id =>
      let '(m', err) := Delete m id in
      (other_error <$> err, no_body, m', [OpDelete id])
  end.

Definition RestAPI (m : inMemory) (r : Request) : Response * inMemory * list op :=
  let has_id := bool_decide (String.length Path < String.length (URLPath r))%nat in
  let '(ctype, (err, written, m', called)) :=
    if decide (Method r = "GET") then
      (Some "application/json", if has_id then read m r else readAll m r)
    else if decide (Method r = "POST") then (None, create m r)
    else if decide (Method r = "PUT") then
      (None, if has_id then update m r else (None, no_body, m, []))
    else if decide (Method r = "DELETE") then
      (None, if has_id then delete m r else (None, no_body, m, []))
    else
      (None, (Some (badRequestError (ErrNotImplemented (Method r))), no_body, m, []))
  in
  (errorHandler {| StatusCode := 200; ContentType := ctype; Payload := written |} err,
   m', called).

(** A sequence of requests against one manager. *)
Fixpoint serve (m : inMemory) (rs : list Request) : inMemory * list Response :=
  match rs with
  | [] => (m, [])
  | r :: rs' =>
      let '(w, m1, _) := RestAPI m r in
      let '(m2, ws) := serve m1 rs' in
      (m2, w :: ws)
  end.

End Handlers.

(** The invariant of a manager that has handed out [k] identifiers: the
    counter stands at [k], and the stored identifiers are pairwise
    distinct numbers below [k]. *)
Definition fresh_below (k : nat) (m : inMemory) : Prop :=
  nextID m = Z.of_nat k /\
  NoDup (ID <$> elems (tasks m)) /\
  Forall (fun z => 0 <= z < Z.of_nat k) (ID <$> elems (tasks m)).

(** The identifiers handed out while [ops] run on a new manager. *)
Definition IDs_of_run (ops : list op) : list Z :=
  assigned_IDs (run NewManager ops).2.

(** The parts of what a handler leaves behind. *)
Definition returned (h : handled) : option herror := h.1.1.1.
Definition written (h : handled) : payload := h.1.1.2.
Definition manager_after (h : handled) : inMemory := h.1.2.
Definition called (h : handled) : list op := h.2.

(** The identifiers of the tasks a list-all response shows, in order. *)
Definition listed_IDs (w : Response) : list Z :=
  match Payload w with
  | tasks_body (json_array ts) => ID <$> ts
  | _ => []
  end.

Definition POST (title : string) : Request :=
  mkRequest "POST" Path ∅ (JSON (mkTask 0 title 0 "" 0 false)).
Definition PUT (path : string) (b : body) : Request := mkRequest "PUT" path ∅ b.
Definition DELETE (path : string) : Request := mkRequest "DELETE" path ∅ BadJSON.
Definition GET (path : string) (q : gmap string (list string)) : Request :=
  mkRequest "GET" path q BadJSON.

(** Two tasks have the same sort key under [by_] when it accepts them in
    either order. *)
Definition same_key (by_ : Sort) (t1 t2 : Task) : bool := by_ t1 t2 && by_ t2 t1.

(** [output] keeps the tasks of [input] that share a key in the order
    they had in [input]. *)
Definition stable (by_ : Sort) (input output : list Task) : Prop :=
  forall t, filter (fun u => same_key by_ t u = true) output
            = filter (fun u => same_key by_ t u = true) input.

(** What TestSort checks: [by_] accepts every task and its successor. *)
Definition ordered (by_ : Sort) (ts : list Task) : Prop :=
  forall i t1 t2, ts !! i = Some t1 -> ts !! S i = Some t2 -> by_ t1 t2 = true.

(** [accepts by_ x y]: [by_] lets [x] stand before [y]. *)
Definition accepts (by_ : Sort) : relation Task := fun x y => by_ x y = true.

(** Where the inner loop of [insertionSort] leaves [x]: [acc] is the
    sorted prefix read from its end, and [x] moves towards the front of
    the prefix past every task that [by_] lets it precede. *)
Fixpoint sink (by_ : Sort) (x : Task) (acc : list Task) : list Task :=
  match acc with
  | [] => [x]
  | y :: ys => if by_ x y then y :: sink by_ x ys else x :: acc
  end.

(** [insertionSort] as a fold, shown below to be what the loops compute. *)
Definition sunk (by_ : Sort) (ts : list Task) : list Task :=
  reverse (foldl (fun acc x => sink by_ x acc) [] ts).

(** Sample data for the instances below. *)
Definition task0 : Task := mkTask 0 "a" 0 "" 0 false.
Definition task1 : Task := mkTask 1 "b" 0 "" 0 false.
Definition task2 : Task := mkTask 2 "c" 7 "" 1 true.
Definition three_tasks : inMemory :=
  {| tasks := mk_slice [task0; task1; task2]; nextID := 3 |}.
Definition dateAsc : Sort := fun t1 t2 => Date t1 <=? Date t2.

(** ** main.go: the wrapper around the handler

    [corsHeaders(fn)] sets three headers on the response, answers an
    OPTIONS request itself (nothing is written, so the status is 200 and
    the body is empty), and hands every other request to [fn].  The
    first component of the result holds the headers the wrapper set;
    the Content-Type the handler sets is part of its [Response]. *)
Definition cors_headers : gmap string string :=
  <["Access-Control-Allow-Headers" :=
      "Accept, Content-Type, Content-Length, Accept-Encoding, X-CSRF-Token, Authorization"]>
    (<["Access-Control-Allow-Methods" := "POST, GET, OPTIONS, PUT, DELETE"]>
       (<["Access-Control-Allow-Origin" := "*"]> ∅)).

Definition corsHeaders
    (fn : inMemory -> Request -> Response * inMemory * list op)
    (m : inMemory) (r : Request)
  : gmap string string * Response * inMemory * list op :=
  if decide (Method r = "OPTIONS")
  then (cors_headers, {| StatusCode := 200; ContentType := None; Payload := no_body |},
        m, [])
  else let '(w, m', called) := fn m r in (cors_headers, w, m', called).

(** The task [Create] makes of a title on manager [m]. *)
Definition new_task (m : inMemory) (title : string) : Task :=
  {| ID := nextID m; Title := title; Date := 0; Note := "";
     Priority := 0; Done := false |}.

(** ** The answers of [RestAPI], case by case

    [answer pdqsort_long m r x]: [x] is the response, the manager and the
    list of manager calls that one of the paths through [RestAPI] and
    its handlers leaves for the request [r] on the manager [m].
    [RestAPI] is shown below to take one of these paths whatever the
    request; the properties of the dispatcher are read off the cases. *)
Definition has_id (r : Request) : Prop :=
  (String.length Path < String.length (URLPath r))%nat.

Definition ok_response (ctype : option string) (written : payload) : Response :=
  {| StatusCode := 200; ContentType := ctype; Payload := written |}.

Definition error_response (code : Z) (e : error) : Response :=
  http_Error (error_text code e) code.

Inductive answer (pdqsort_long : Sort -> list Task -> list Task)
    (m : inMemory) (r : Request) : Response * inMemory * list op -> Prop :=
  | read_bad_id
      (Hmeth : Method r = "GET") (Hid : has_id r) (Hparse : parseID r = None) :
      answer pdqsort_long m r (error_response 400 ErrAtoi, m, [])
  | read_missing id
      (Hmeth : Method r = "GET") (Hid : has_id r) (Hparse : parseID r = Some id)
      (Hfind : Find m id = None) :
      answer pdqsort_long m r (error_response 404 (ErrNoSuchTask id), m, [OpFind id])
  | read_found id t
      (Hmeth : Method r = "GET") (Hid : has_id r) (Hparse : parseID r = Some id)
      (Hfind : Find m id = Some t) :
      answer pdqsort_long m r
        (ok_response (Some "application/json") (task_body t), m, [OpFind id])
  | read_all
      (Hmeth : Method r = "GET") (Hid : ~ has_id r) :
      answer pdqsort_long m r
        (ok_response (Some "application/json") (written (readAll pdqsort_long m r)),
         manager_after (readAll pdqsort_long m r), [OpAll])
  | create_bad_body
      (Hmeth : Method r = "POST") (Hbody : Body r = BadJSON) :
      answer pdqsort_long m r (error_response 400 ErrDecode, m, [])
  | create_empty_title req
      (Hmeth : Method r = "POST") (Hbody : Body r = JSON req)
      (Htitle : Title req = "") :
      answer pdqsort_long m r (error_response 400 ErrCreateEmptyTitle, m, [OpCreate ""])
  | create_done req
      (Hmeth : Method r = "POST") (Hbody : Body r = JSON req)
      (Htitle : Title req <> "") :
      answer pdqsort_long m r
        (ok_response None no_body,
         {| tasks := append (tasks m) (new_task m (Title req));
            nextID := int_wrap (nextID m + 1) |},
         [OpCreate (Title req)])
  | update_no_id
      (Hmeth : Method r = "PUT") (Hid : ~ has_id r) :
      answer pdqsort_long m r (ok_response None no_body, m, [])
  | update_bad_id
      (Hmeth : Method r = "PUT") (Hid : has_id r) (Hparse : parseID r = None) :
      answer pdqsort_long m r (error_response 400 ErrAtoi, m, [])
  | update_bad_body id
      (Hmeth : Method r = "PUT") (Hid : has_id r) (Hparse : parseID r = Some id)
      (Hbody : Body r = BadJSON) :
      answer pdqsort_long m r (error_response 400 ErrDecode, m, [])
  | update_other_id id t
      (Hmeth : Method r = "PUT") (Hid : has_id r) (Hparse : parseID r = Some id)
      (Hbody : Body r = JSON t) (Hne : ID t <> id) :
      answer pdqsort_long m r (error_response 400 ErrInconsistentIDs, m, [])
  | update_missing t
      (Hmeth : Method r = "PUT") (Hid : has_id r) (Hparse : parseID r = Some (ID t))
      (Hbody : Body r = JSON t) (Hfind : Find m (ID t) = None) :
      answer pdqsort_long m r
        (error_response 404 (ErrNoSuchTask (ID t)), m, [OpFind (ID t)])
  | update_done t old m'
      (Hmeth : Method r = "PUT") (Hid : has_id r) (Hparse : parseID r = Some (ID t))
      (Hbody : Body r = JSON t) (Hfind : Find m (ID t) = Some old)
      (Hupd : Update m t = (m', None)) :
      answer pdqsort_long m r
        (ok_response None no_body, m', [OpFind (ID t); OpUpdate t])
  | delete_no_id
      (Hmeth : Method r = "DELETE") (Hid : ~ has_id r) :
      answer pdqsort_long m r (ok_response None no_body, m, [])
  | delete_bad_id
      (Hmeth : Method r = "DELETE") (Hid : has_id r) (Hparse : parseID r = None) :
      answer pdqsort_long m r (error_response 400 ErrAtoi, m, [])
  | delete_missing id
      (Hmeth : Method r = "DELETE") (Hid : has_id r) (Hparse : parseID r = Some id)
      (Hfind : Find m id = None) :
      answer pdqsort_long m r
        (http_Error internal_server_error 500, m, [OpDelete id])
  | delete_done id old m'
      (Hmeth : Method r = "DELETE") (Hid : has_id r) (Hparse : parseID r = Some id)
      (Hfind : Find m id = Some old) (Hdel : Delete m id = (m', None)) :
      answer pdqsort_long m r (ok_response None no_body, m', [OpDelete id])
  | not_implemented
      (Hget : Method r <> "GET") (Hpost : Method r <> "POST")
      (Hput : Method r <> "PUT") (Hdelete : Method r <> "DELETE") :
      answer pdqsort_long m r
        (error_response 400 (ErrNotImplemented (Method r)), m, []).

(** * Properties of the manager *)

Lemma int_wrap_id z : int_min <= z <= int_max -> int_wrap z = z.
Proof.
  unfold int_min, int_max, int_wrap. intros Hz.
  rewrite Z.mod_small; lia.
Qed.

Lemma first_with_ID_Some id ts i t :
  first_with_ID id ts = Some (i, t) <->
  ts !! i = Some t /\ ID t = id /\
  forall j y, ts !! j = Some y -> (j < i)%nat -> ID y <> id.
Proof. unfold first_with_ID. by rewrite list_find_Some. Qed.

Lemma first_with_ID_None id ts :
  first_with_ID id ts = None <-> forall t, t ∈ ts -> ID t <> id.
Proof. unfold first_with_ID. rewrite list_find_None, Forall_forall. done. Qed.

(** Where [first_with_ID] stops, the list splits around the task found. *)
Lemma first_with_ID_split id ts i t :
  first_with_ID id ts = Some (i, t) ->
  ts = take i ts ++ t :: drop (S i) ts /\ length (take i ts) = i /\
  forall y, y ∈ take i ts -> ID y <> id.
Proof.
  intros (Hi & _ & Hbefore)%first_with_ID_Some.
  pose proof (lookup_lt_Some _ _ _ Hi) as Hlt.
  split; [by rewrite take_drop_middle|].
  split; [rewrite length_take; lia|].
  intros y (j & Hj)%list_elem_of_lookup.
  apply lookup_take_Some in Hj as [Hj Hji]. eauto.
Qed.

Lemma Find_None m id :
  Find m id = None <-> forall t, t ∈ elems (tasks m) -> ID t <> id.
Proof.
  unfold Find. rewrite <- first_with_ID_None.
  destruct (first_with_ID id (elems (tasks m))); simpl; split; congruence.
Qed.

Lemma Find_Some m id t :
  Find m id = Some t -> t ∈ elems (tasks m) /\ ID t = id.
Proof.
  unfold Find. destruct (first_with_ID id (elems (tasks m))) as [[i r]|] eqn:E;
    simpl; [|done].
  intros [= ->]. apply first_with_ID_Some in E as (Hi & Hid & _).
  split; [|done]. apply list_elem_of_lookup. eauto.
Qed.

(** What a successful [Update] does to the sequence. *)
Lemma Update_ok m task m' :
  Update m task = (m', None) ->
  exists i old,
    first_with_ID (ID task) (elems (tasks m)) = Some (i, old) /\
    tasks m' = mk_slice (<[i := task]> (elems (tasks m))) /\
    nextID m' = nextID m.
Proof.
  unfold Update.
  destruct (first_with_ID (ID task) (elems (tasks m))) as [[i old]|] eqn:E;
    [|done].
  intros [= <-]. exists i, old. done.
Qed.

Lemma first_with_ID_insert id ts i old task :
  first_with_ID id ts = Some (i, old) -> ID task = id ->
  first_with_ID id (<[i := task]> ts) = Some (i, task).
Proof.
  intros (Hi & _ & Hbefore)%first_with_ID_Some Hid.
  apply first_with_ID_Some. split; [|split; [done|]].
  - apply list_lookup_insert_eq. by eapply lookup_lt_Some.
  - intros j y Hj Hlt. rewrite list_lookup_insert_ne in Hj by lia. eauto.
Qed.

(** C5. [Update] either finds no stored task with the identifier of its
    argument, fails with [ErrUpdateUnknown] and returns the manager as it
    was; or it finds one, succeeds, and the task stored under that
    identifier afterwards is the argument, field for field. *)
Theorem Update_unknown_or_replaced (m : inMemory) (task : Task) :
  ((forall t, t ∈ elems (tasks m) -> ID t <> ID task) /\
   Update m task = (m, Some ErrUpdateUnknown))
  \/
  ((exists t, t ∈ elems (tasks m) /\ ID t = ID task) /\
   exists m', Update m task = (m', None) /\ Find m' (ID task) = Some task).
Proof.
  unfold Update.
  destruct (first_with_ID (ID task) (elems (tasks m))) as [[i old]|] eqn:E.
  - right. split.
    + apply first_with_ID_Some in E as (Hi & Hid & _).
      exists old. split; [|done]. apply list_elem_of_lookup. eauto.
    + eexists. split; [done|]. unfold Find. simpl.
      by erewrite first_with_ID_insert.
  - left. split; [|done]. by apply first_with_ID_None.
Qed.

(** C9. A successful [Update] keeps every position: the identifiers of
    the stored tasks read the same before and after, the counter is
    untouched, and a stored task with another identifier than the
    argument's is the same task at the same index afterwards. *)
Theorem Update_frame (m m' : inMemory) (task : Task) :
  Update m task = (m', None) ->
  ID <$> elems (tasks m') = ID <$> elems (tasks m) /\
  nextID m' = nextID m /\
  forall j t, elems (tasks m) !! j = Some t -> ID t <> ID task ->
              elems (tasks m') !! j = Some t.
Proof.
  intros (i & old & E & -> & Hn)%Update_ok. simpl.
  apply first_with_ID_Some in E as (Hi & Hid & _).
  split; [|split; [done|]].
  - rewrite list_fmap_insert, <- Hid. apply list_insert_id.
    by rewrite list_lookup_fmap, Hi.
  - intros j t Hj Hne. rewrite list_lookup_insert_ne; [done|].
    intros ->. congruence.
Qed.

(** C6. On a manager whose stored identifiers are pairwise distinct,
    [Delete] either finds no task with the identifier and fails with
    [ErrDeleteUnknown]; or it takes out the one task with that
    identifier and leaves the tasks before and after it as they were and
    in their order, after which [Find] does not find the identifier and a
    second [Delete] fails with [ErrDeleteUnknown]. *)
Theorem Delete_removes_exactly (m : inMemory) (id : Z) :
  NoDup (ID <$> elems (tasks m)) ->
  ((forall t, t ∈ elems (tasks m) -> ID t <> id) /\
   Delete m id = (m, Some ErrDeleteUnknown))
  \/
  (exists l1 t l2 m',
      elems (tasks m) = l1 ++ t :: l2 /\ ID t = id /\
      Delete m id = (m', None) /\
      elems (tasks m') = l1 ++ l2 /\ nextID m' = nextID m /\
      Find m' id = None /\
      Delete m' id = (m', Some ErrDeleteUnknown)).
Proof.
  intros Hnd. unfold Delete at 1 2.
  destruct (first_with_ID id (elems (tasks m))) as [[i t]|] eqn:E.
  - right.
    pose proof E as (Hsplit & _ & _)%first_with_ID_split.
    pose proof E as (_ & Hid & _)%first_with_ID_Some.
    set (l1 := take i (elems (tasks m))) in *.
    set (l2 := drop (S i) (elems (tasks m))) in *.
    assert (Hgone : forall y, y ∈ l1 ++ l2 -> ID y <> id).
    { rewrite Hsplit, fmap_app, fmap_cons in Hnd.
      apply NoDup_app in Hnd as (_ & Hl1 & Hnd).
      apply NoDup_cons in Hnd as (Hl2 & _).
      intros y [Hy|Hy]%elem_of_app Heq.
      - apply (Hl1 (ID y)); [by apply list_elem_of_fmap_2|].
        rewrite Heq, <- Hid. left.
      - apply Hl2. rewrite Hid, <- Heq. by apply list_elem_of_fmap_2. }
    eexists l1, t, l2, _. repeat split; try done.
    + by apply Find_None.
    + unfold Delete. simpl.
      by apply first_with_ID_None in Hgone as ->.
  - left. split; [|done]. by apply first_with_ID_None.
Qed.

(** C7. [Create] with the empty title fails with [ErrCreateEmptyTitle]
    and returns the manager as it was, sequence and counter; it fails for
    no other title, and a title of one blank is accepted. *)
Theorem Create_empty_title (m : inMemory) :
  Create m "" = (m, inl ErrCreateEmptyTitle) /\
  (forall title, (exists e, (Create m title).2 = inl e) <-> title = "") /\
  (exists t, Create m " " =
             ({| tasks := append (tasks m) t;
                 nextID := int_wrap (nextID m + 1) |}, inr t) /\
             Title t = " " /\ ID t = nextID m).
Proof.
  split; [done|]. split.
  - intros title. unfold Create. destruct (decide (title = "")); simpl.
    + split; eauto.
    + split; [intros [e [=]]|done].
  - eexists. by split.
Qed.

(** ** Runs of the manager *)

Lemma Update_ok_IDs m task m' :
  Update m task = (m', None) ->
  ID <$> elems (tasks m') = ID <$> elems (tasks m) /\ nextID m' = nextID m.
Proof.
  intros (i & old & E & -> & Hn)%Update_ok. simpl. split; [|done].
  apply first_with_ID_Some in E as (Hi & Hid & _).
  rewrite list_fmap_insert, <- Hid. apply list_insert_id.
  by rewrite list_lookup_fmap, Hi.
Qed.

Lemma Update_failed m task m' e :
  Update m task = (m', Some e) -> m' = m.
Proof.
  unfold Update. by destruct (first_with_ID _ _) as [[??]|]; intros [=].
Qed.

Lemma Delete_ok m id m' :
  Delete m id = (m', None) ->
  exists i, is_Some (elems (tasks m) !! i) /\
            elems (tasks m') = base.delete i (elems (tasks m)) /\
            nextID m' = nextID m.
Proof.
  unfold Delete.
  destruct (first_with_ID id (elems (tasks m))) as [[i t]|] eqn:E; [|done].
  intros [= <-]. apply first_with_ID_Some in E as (Hi & _).
  exists i. simpl. by rewrite delete_take_drop.
Qed.

Lemma Delete_failed m id m' e :
  Delete m id = (m', Some e) -> m' = m.
Proof.
  unfold Delete. by destruct (first_with_ID _ _) as [[??]|]; intros [=].
Qed.

Lemma fresh_below_same_IDs k m m' :
  fresh_below k m ->
  ID <$> elems (tasks m') = ID <$> elems (tasks m) -> nextID m' = nextID m ->
  fresh_below k m'.
Proof. intros (? & ? & ?) HI Hn. unfold fresh_below. by rewrite HI, Hn. Qed.

(** One call keeps the invariant, and a successful [Create] hands out
    the number the counter stood at. *)
Lemma step_fresh k m o m' r :
  fresh_below k m -> Z.of_nat k < int_max -> step m o = (m', r) ->
  fresh_below (k + length (assigned_IDs [r])) m' /\
  assigned_IDs [r] = Z.of_nat <$> seq k (length (assigned_IDs [r])).
Proof.
  intros Hinv Hk Hstep.
  assert (Hsame : m' = m -> assigned_IDs [r] = [] ->
                  fresh_below (k + length (assigned_IDs [r])) m' /\
                  assigned_IDs [r] = Z.of_nat <$> seq k (length (assigned_IDs [r]))).
  { intros -> ->. simpl. by rewrite Nat.add_0_r. }
  destruct o; simpl in Hstep.
  - unfold Create in Hstep. destruct (decide (title = "")).
    + injection Hstep as <- <-. by apply Hsame.
    + injection Hstep as <- <-. destruct Hinv as (Hn & Hnd & Hlt).
      unfold assigned_IDs, fresh_below. simpl. rewrite Hn. split; [|done].
      rewrite fmap_app. simpl. split; [|split].
      * rewrite int_wrap_id by (unfold int_min, int_max in *; lia). lia.
      * apply NoDup_app. split; [done|]. split; [|apply NoDup_singleton].
        intros z Hz ->%list_elem_of_singleton.
        rewrite Forall_forall in Hlt. specialize (Hlt _ Hz). lia.
      * apply Forall_app. split.
        -- eapply Forall_impl; [exact Hlt|]. simpl. lia.
        -- apply Forall_singleton. lia.
  - injection Hstep as <- <-. by apply Hsame.
  - injection Hstep as <- <-. by apply Hsame.
  - destruct (Update m task) as [m1 [e|]] eqn:E; injection Hstep as <- <-.
    + apply Update_failed in E. by apply Hsame.
    + apply Update_ok_IDs in E as [HI Hn]. simpl. rewrite Nat.add_0_r.
      split; [|done]. by eapply fresh_below_same_IDs.
  - destruct (Delete m id) as [m1 [e|]] eqn:E; injection Hstep as <- <-.
    + apply Delete_failed in E. by apply Hsame.
    + apply Delete_ok in E as (i & _ & Hl & Hn). simpl. rewrite Nat.add_0_r.
      split; [|done]. destruct Hinv as (Hn0 & Hnd & Hlt).
      unfold fresh_below. rewrite Hl, Hn, list_fmap_delete.
      split; [done|]. split.
      * eapply sublist_NoDup; [done|apply sublist_delete].
      * by apply Forall_delete.
  - injection Hstep as <- <-. by apply Hsame.
Qed.

Lemma assigned_IDs_cons r rs :
  assigned_IDs (r :: rs) = assigned_IDs [r] ++ assigned_IDs rs.
Proof. unfold assigned_IDs. simpl. by destruct (assigned_ID r). Qed.

Lemma run_cons m o ops :
  run m (o :: ops) = ((run (step m o).1 ops).1, (step m o).2 :: (run (step m o).1 ops).2).
Proof. simpl. destruct (step m o) as [m1 r]. simpl. by destruct (run m1 ops). Qed.

Lemma length_assigned_step m o : (length (assigned_IDs [(step m o).2]) <= 1)%nat.
Proof.
  unfold assigned_IDs. simpl. destruct (assigned_ID _); simpl; lia.
Qed.

Lemma run_fresh ops : forall k m,
  fresh_below k m -> Z.of_nat (k + length ops) <= int_max ->
  fresh_below (k + length (assigned_IDs (run m ops).2)) (run m ops).1 /\
  assigned_IDs (run m ops).2
  = Z.of_nat <$> seq k (length (assigned_IDs (run m ops).2)).
Proof.
  induction ops as [|o ops IH]; intros k m Hinv Hlen.
  - simpl. by rewrite Nat.add_0_r.
  - rewrite run_cons. simpl fst. simpl snd. simpl in Hlen.
    destruct (step_fresh k m o (step m o).1 (step m o).2 Hinv) as [Hinv1 Hids1];
      [lia|by destruct (step m o)|].
    pose proof (length_assigned_step m o) as Hle.
    destruct (IH _ _ Hinv1) as [Hinv2 Hids2]; [lia|].
    rewrite assigned_IDs_cons, length_app, Nat.add_assoc. split; [done|].
    rewrite seq_app, fmap_app. by rewrite <- Hids1, <- Hids2.
Qed.

Lemma fresh_below_NewManager : fresh_below 0 NewManager.
Proof. repeat split; simpl; constructor. Qed.

(** The stored identifiers stay pairwise distinct in every manager that
    calls have made from a new one. *)
Lemma run_NoDup ops :
  Z.of_nat (length ops) <= int_max ->
  NoDup (ID <$> elems (tasks (run NewManager ops).1)).
Proof.
  intros Hlen. by destruct (run_fresh ops 0 NewManager) as [(_ & ? & _) _];
    [apply fresh_below_NewManager|..].
Qed.

(** C3. While calls run on a new manager (fewer of them than [int] has
    non-negative values), the identifiers that the successful [Create]s
    hand out are 0, 1, 2, ... in this order, whatever was deleted in
    between: each is greater than all earlier ones, and none occurs
    twice. *)
Theorem Create_IDs_increase (ops : list op) :
  Z.of_nat (length ops) <= int_max ->
  IDs_of_run ops = Z.of_nat <$> seq 0 (length (IDs_of_run ops)) /\
  (forall i j a b, IDs_of_run ops !! i = Some a -> IDs_of_run ops !! j = Some b ->
                   (i < j)%nat -> a < b) /\
  NoDup (IDs_of_run ops).
Proof.
  intros Hlen. unfold IDs_of_run.
  destruct (run_fresh ops 0 NewManager) as [_ Hids];
    [apply fresh_below_NewManager|done|].
  set (ids := assigned_IDs (run NewManager ops).2) in *.
  split; [done|]. rewrite Hids. split.
  - intros i j a b Hi Hj Hij.
    rewrite list_lookup_fmap in Hi, Hj.
    destruct (seq 0 (length ids) !! i) as [x|] eqn:Ex; [|done].
    destruct (seq 0 (length ids) !! j) as [y|] eqn:Ey; [|done].
    apply lookup_seq in Ex as [-> _]. apply lookup_seq in Ey as [-> _].
    simpl in Hi, Hj. injection Hi as <-. injection Hj as <-. lia.
  - apply NoDup_fmap_2; [apply Nat2Z.inj'|apply NoDup_seq].
Qed.

Lemma count_of_cons {A} (p : A -> bool) x l :
  count_of p (x :: l) = (if p x then 1 else 0) + count_of p l.
Proof.
  unfold count_of. rewrite filter_cons.
  destruct (p x); case_decide; try done; simpl; lia.
Qed.

Lemma step_Count m o :
  Count (step m o).1
  = Count m + (if create_ok (step m o).2 then 1 else 0)
            - (if delete_ok (step m o).2 then 1 else 0).
Proof.
  destruct o; simpl; try lia.
  - unfold Create. destruct (decide (title = "")); simpl; [lia|].
    unfold Count. simpl. rewrite length_app. simpl. lia.
  - destruct (Update m task) as [m1 [e|]] eqn:E; simpl.
    + apply Update_failed in E as ->. lia.
    + apply Update_ok_IDs in E as [HI _]. unfold Count.
      apply (f_equal length) in HI. rewrite !length_fmap in HI. lia.
  - destruct (Delete m id) as [m1 [e|]] eqn:E; simpl.
    + apply Delete_failed in E as ->. lia.
    + apply Delete_ok in E as (i & Hi & Hl & _). unfold Count.
      rewrite Hl, length_delete by done.
      apply lookup_lt_is_Some in Hi. lia.
Qed.

Lemma run_Count ops : forall m,
  Count (run m ops).1
  = Count m + count_of create_ok (run m ops).2
            - count_of delete_ok (run m ops).2.
Proof.
  induction ops as [|o ops IH]; intros m.
  - unfold count_of. simpl. lia.
  - rewrite run_cons. simpl fst. simpl snd.
    rewrite IH, step_Count, !count_of_cons. lia.
Qed.

(** C4, as amended.  After any calls on a new manager, [Count] is the
    number of [Create]s that succeeded minus the number of [Delete]s
    that succeeded. *)
Theorem Count_creates_minus_deletes (ops : list op) :
  Count (run NewManager ops).1
  = count_of create_ok (run NewManager ops).2
    - count_of delete_ok (run NewManager ops).2.
Proof. rewrite run_Count. unfold Count. simpl. lia. Qed.

(** C4, as stated, counts every [Create] in the sequence; one with the
    empty title stores nothing. *)
Lemma Count_all_creates_fails :
  ~ (forall ops : list op,
       Count (run NewManager ops).1
       = count_of is_create ops - count_of delete_ok (run NewManager ops).2).
Proof. intros H. specialize (H [OpCreate ""]). vm_compute in H. discriminate. Qed.

(** * Properties of the handlers *)

(** C8. A PUT request whose path is [/task/] is answered with status
    200 and no body; no method of the manager is called and the manager
    is the one the request found. *)
Theorem PUT_without_identifier
    (pdqsort_long : Sort -> list Task -> list Task)
    (m : inMemory) (q : gmap string (list string)) (b : body) :
  RestAPI pdqsort_long m (mkRequest "PUT" "/task/" q b)
  = ({| StatusCode := 200; ContentType := None; Payload := no_body |}, m, []).
Proof. reflexivity. Qed.

Lemma Filter_Tasks_foldl (f : Filter) (ts : list Task) : forall r : slice,
  foldl (fun r t => if f t then append r t else r) r ts
  = match filter (fun t => f t = true) ts with
    | [] => r
    | kept => mk_slice (elems r ++ kept)
    end.
Proof.
  induction ts as [|t ts IH]; intros r; [done|].
  simpl. rewrite IH, filter_cons. destruct (f t); case_decide; try done.
  simpl. destruct (filter _ ts); [done|]. by rewrite <- app_assoc.
Qed.

(** [Filter.Tasks] keeps the tasks the predicate accepts, in their
    order, and returns the nil slice when it accepts none. *)
Lemma Filter_Tasks_elems (f : Filter) (s : slice) :
  elems (Filter_Tasks f s) = filter (fun t => f t = true) (elems s).
Proof.
  unfold Filter_Tasks. rewrite Filter_Tasks_foldl.
  by destruct (filter _ (elems s)).
Qed.

Lemma Filter_Tasks_nil (f : Filter) (s : slice) :
  (forall t, t ∈ elems s -> f t = false) -> Filter_Tasks f s = nil_slice.
Proof.
  intros Hnone. unfold Filter_Tasks. rewrite Filter_Tasks_foldl.
  destruct (filter _ (elems s)) as [|t kept] eqn:E; [done|].
  assert (Ht : t ∈ filter (fun t => f t = true) (elems s)) by (rewrite E; left).
  apply list_elem_of_filter in Ht as [Ht Hin]. rewrite Hnone in Ht; done.
Qed.

Lemma Sort_Tasks_nil pdqsort_long by_ : Sort_Tasks pdqsort_long by_ nil_slice = nil_slice.
Proof. done. Qed.

(** A list-all request with a filter, or without a sorter, leaves the
    manager as it was. *)
Lemma readAll_keeps_manager pdqsort_long m r :
  is_Some (filters !! Values_Get (URLQuery r) "filter") \/
  sorters !! Values_Get (URLQuery r) "sortBy" = None ->
  manager_after (readAll pdqsort_long m r) = m.
Proof.
  unfold readAll, manager_after.
  intros [[f ->]| ->]; simpl.
  - by destruct (sorters !! _).
  - by destruct (filters !! _).
Qed.

(** A list-all request with a sorter and without a filter leaves the
    manager with the sorted sequence. *)
Lemma readAll_sorts_manager pdqsort_long m r (by_ : Sort) :
  filters !! Values_Get (URLQuery r) "filter" = None ->
  sorters !! Values_Get (URLQuery r) "sortBy" = Some by_ ->
  manager_after (readAll pdqsort_long m r)
  = {| tasks := Sort_Tasks pdqsort_long by_ (tasks m); nextID := nextID m |}.
Proof. unfold readAll, manager_after, All. by intros -> ->. Qed.

(** C10, as amended.  The list-all response shows [null] for the tasks
    when the manager's slice is the nil slice, or when the filter that
    was asked for accepts none of the stored tasks; when the slice is
    empty but not nil and no filter was asked for, it shows an empty
    array. *)
Theorem readAll_null_or_empty_array
    (pdqsort_long : Sort -> list Task -> list Task)
    (m : inMemory) (r : Request) :
  ((tasks m = nil_slice \/
    exists f : Filter, filters !! Values_Get (URLQuery r) "filter" = Some f /\
              forall t, t ∈ elems (tasks m) -> f t = false) ->
   written (readAll pdqsort_long m r) = tasks_body json_null)
  /\
  (tasks m = mk_slice [] ->
   filters !! Values_Get (URLQuery r) "filter" = None ->
   written (readAll pdqsort_long m r) = tasks_body (json_array [])).
Proof.
  unfold readAll, written, All. split.
  - intros [Hnil|(f & -> & Hnone)].
    + rewrite Hnil.
      assert (Hf : forall f, Filter_Tasks f nil_slice = nil_slice) by done.
      destruct (filters !! _); destruct (sorters !! _); simpl; by rewrite ?Hf.
    + rewrite (Filter_Tasks_nil f) by done.
      by destruct (sorters !! _).
  - intros -> ->. by destruct (sorters !! _).
Qed.

(** The manager's slice is the nil slice exactly as long as no [Create]
    has succeeded. *)
Lemma step_nil_slice m o :
  tasks (step m o).1 = nil_slice <->
  tasks m = nil_slice /\ assigned_IDs [(step m o).2] = [].
Proof.
  destruct o; simpl; try (split; [intros ?|intros [? _]]; done).
  - unfold Create. destruct (decide (title = "")); simpl.
    + split; [done|by intros [? _]].
    + split; [done|by intros [_ ?]].
  - unfold Update. destruct (first_with_ID _ _) as [[i t]|] eqn:E; simpl.
    + split; [done|]. intros [Hnil _]. by rewrite Hnil in E.
    + split; [done|by intros [? _]].
  - unfold Delete. destruct (first_with_ID _ _) as [[i t]|] eqn:E; simpl.
    + split; [done|]. intros [Hnil _]. by rewrite Hnil in E.
    + split; [done|by intros [? _]].
Qed.

Lemma run_nil_slice ops : forall m,
  tasks (run m ops).1 = nil_slice <->
  tasks m = nil_slice /\ assigned_IDs (run m ops).2 = [].
Proof.
  induction ops as [|o ops IH]; intros m.
  - simpl. split; [done|by intros [? _]].
  - rewrite run_cons. simpl fst. simpl snd.
    rewrite IH, step_nil_slice, (assigned_IDs_cons _ (run _ _).2).
    split.
    + intros [[? ->] ->]. done.
    + intros [? [? ?]%app_eq_nil]. done.
Qed.

(** X27. After any calls on a new manager, the manager's slice is the
    nil slice exactly when no [Create] has succeeded. *)
Lemma nil_slice_iff_no_Create ops :
  tasks (run NewManager ops).1 = nil_slice <-> IDs_of_run ops = [].
Proof.
  unfold IDs_of_run. rewrite run_nil_slice. split; [by intros [_ ?]|done].
Qed.

(** C10, as stated, fails on a manager that deletes have emptied: its
    slice has a backing array, and the response shows an empty array. *)
Lemma readAll_emptied_not_null :
  ~ (forall (pdqsort_long : Sort -> list Task -> list Task) m r,
       elems (tasks m) = [] \/
       (exists f : Filter, filters !! Values_Get (URLQuery r) "filter" = Some f /\
                  forall t, t ∈ elems (tasks m) -> f t = false) ->
       written (readAll pdqsort_long m r) = tasks_body json_null).
Proof.
  intros H.
  specialize (H (fun _ ts => ts) (run NewManager [OpCreate "a"; OpDelete 0]).1
                (GET Path ∅)).
  discriminate H. by left.
Qed.

(** C2, on the code.  Two tasks are created and the first is given a
    later date; a list-all request sorted by date, without a filter,
    swaps them in the manager's own array, and the plain list-all
    request after it shows the second task first.  Without the sorted
    request in between, the plain one shows them as created. *)
Theorem sorted_listing_reorders_manager
    (pdqsort_long : Sort -> list Task -> list Task) :
  listed_IDs <$>
    (serve pdqsort_long NewManager
       [POST "a"; POST "b"; PUT "/task/0" (JSON (mkTask 0 "a" 5 "" 0 false));
        GET Path {[ "sortBy" := ["dateAsc"] ]};
        GET Path ∅]).2 !! 4%nat = Some [1; 0]
  /\
  listed_IDs <$>
    (serve pdqsort_long NewManager
       [POST "a"; POST "b"; PUT "/task/0" (JSON (mkTask 0 "a" 5 "" 0 false));
        GET Path ∅]).2 !! 3%nat = Some [0; 1].
Proof. split; vm_compute; reflexivity. Qed.

(** * Properties of sorting *)

Lemma adjacent_Less (by_ : Sort) (pre : list Task) y x post :
  sorter_Less by_ (pre ++ y :: x :: post) (S (length pre)) (length pre) = by_ x y.
Proof.
  unfold sorter_Less.
  rewrite (list_lookup_middle pre _ y (length pre)) by done.
  rewrite lookup_app_r by lia.
  replace (S (length pre) - length pre)%nat with 1%nat by lia. done.
Qed.

Lemma adjacent_Swap (pre : list Task) y x post :
  sorter_Swap (pre ++ y :: x :: post) (S (length pre)) (length pre)
  = pre ++ x :: y :: post.
Proof.
  unfold sorter_Swap.
  rewrite (list_lookup_middle pre _ y (length pre)) by done.
  rewrite lookup_app_r by lia.
  replace (S (length pre) - length pre)%nat with 1%nat by lia. simpl.
  rewrite !insert_app_r_alt by lia.
  replace (S (length pre) - length pre)%nat with 1%nat by lia.
  by rewrite Nat.sub_diag.
Qed.

(** The inner loop, started at the task behind a prefix of [j] tasks. *)
Lemma insertion_inner_sink (by_ : Sort) j : forall pre x post,
  length pre = j ->
  insertion_inner by_ 0 j (pre ++ x :: post)
  = reverse (sink by_ x (reverse pre)) ++ post.
Proof.
  induction j as [|j IH]; intros pre x post Hlen.
  - by destruct pre.
  - destruct pre as [|y pre _] using rev_ind; [done|].
    rewrite length_app in Hlen. simpl in Hlen.
    assert (Hj : length pre = j) by lia. subst j.
    rewrite reverse_snoc, <- app_assoc. simpl.
    rewrite adjacent_Less. destruct (by_ x y).
    + rewrite adjacent_Swap, IH by done.
      by rewrite reverse_cons, <- app_assoc.
    + by rewrite !reverse_cons, reverse_involutive, <- !app_assoc.
Qed.

Lemma length_sink (by_ : Sort) x acc : length (sink by_ x acc) = S (length acc).
Proof.
  induction acc as [|y ys IH]; [done|]. simpl.
  destruct (by_ x y); simpl; by rewrite ?IH.
Qed.

(** The outer loop, with the tasks [rest] still to be placed. *)
Lemma insertion_outer_sink (by_ : Sort) rest : forall pre,
  insertion_outer by_ 0 (length pre) (length rest) (pre ++ rest)
  = reverse (foldl (fun acc x => sink by_ x acc) (reverse pre) rest).
Proof.
  induction rest as [|x rest IH]; intros pre.
  - simpl. by rewrite app_nil_r, reverse_involutive.
  - simpl. rewrite insertion_inner_sink by done.
    specialize (IH (reverse (sink by_ x (reverse pre)))).
    rewrite length_reverse, length_sink, length_reverse, reverse_involutive in IH.
    done.
Qed.

(** The two loops of [insertionSort(data, 0, n)] compute [sunk]. *)
Lemma insertionSort_sunk (by_ : Sort) ts :
  insertionSort by_ ts 0 (length ts) = sunk by_ ts.
Proof.
  unfold insertionSort, sunk. destruct ts as [|x rest]; [done|].
  simpl. rewrite Nat.sub_0_r.
  exact (insertion_outer_sink by_ rest [x]).
Qed.

Lemma sort_Sort_sunk pdqsort_long (by_ : Sort) ts :
  (length ts <= maxInsertion)%nat -> sort_Sort pdqsort_long by_ ts = sunk by_ ts.
Proof.
  intros Hlen. unfold sort_Sort.
  destruct (length ts <=? 1)%nat eqn:E1.
  - apply Nat.leb_le in E1. by destruct ts as [|x [|y ts]]; [..|simpl in E1; lia].
  - apply Nat.leb_le in Hlen as ->. apply insertionSort_sunk.
Qed.

Lemma filter_none {A} (P : A -> Prop) `{forall x, Decision (P x)} (l : list A) :
  (forall x, x ∈ l -> ~ P x) -> filter P l = [].
Proof.
  intros Hnone. destruct (filter P l) as [|x kept] eqn:E; [done|].
  assert (Hx : x ∈ filter P l) by (rewrite E; left).
  apply list_elem_of_filter in Hx as [HP Hin]. by destruct (Hnone x).
Qed.

Section sinking.

Variable by_ : Sort.
Hypothesis by_total : forall x y, by_ x y = true \/ by_ y x = true.
Hypothesis by_trans : forall x y z, by_ x y = true -> by_ y z = true -> by_ x z = true.

Lemma sink_Permutation x acc : sink by_ x acc ≡ₚ x :: acc.
Proof.
  induction acc as [|y ys IH]; [done|]. simpl.
  destruct (by_ x y); [|done]. rewrite IH. apply Permutation_swap.
Qed.

Lemma sink_sorted x acc :
  StronglySorted (flip (accepts by_)) acc ->
  StronglySorted (flip (accepts by_)) (sink by_ x acc).
Proof.
  induction acc as [|y ys IH]; intros Hacc; simpl.
  - repeat constructor.
  - apply StronglySorted_inv in Hacc as [Hys Hy].
    destruct (by_ x y) eqn:Exy.
    + constructor; [by apply IH|].
      rewrite sink_Permutation. by constructor.
    + assert (Hyx : by_ y x = true) by (destruct (by_total x y); congruence).
      constructor; [by constructor|]. constructor; [done|].
      eapply Forall_impl; [exact Hy|]. unfold flip, accepts. eauto.
Qed.

Lemma same_key_left t x y :
  same_key by_ t x = true -> by_ x y = true -> by_ t y = true.
Proof. unfold same_key. intros [? _]%andb_true_iff ?. eauto. Qed.

Lemma same_key_right t x y :
  same_key by_ t x = true -> by_ t y = true -> by_ x y = true.
Proof. unfold same_key. intros [_ ?]%andb_true_iff ?. eauto. Qed.

(** [x] comes to stand behind every task of [acc] that shares its key. *)
Lemma sink_same_key t x acc :
  StronglySorted (flip (accepts by_)) acc ->
  filter (fun u => same_key by_ t u = true) (sink by_ x acc)
  = filter (fun u => same_key by_ t u = true) acc
    ++ filter (fun u => same_key by_ t u = true) [x].
Proof.
  induction acc as [|y ys IH]; intros Hacc; simpl.
  - done.
  - apply StronglySorted_inv in Hacc as [Hys Hy].
    destruct (by_ x y) eqn:Exy.
    + rewrite !(filter_cons _ y), IH by done. by case_decide.
    + rewrite (filter_cons _ x (y :: ys)), (filter_cons _ x []), filter_nil.
      case_decide as Htx; [|by rewrite app_nil_r].
      assert (Hnone : forall u, u ∈ y :: ys -> ~ same_key by_ t u = true).
      { intros u Hu Htu.
        assert (Huy : by_ u y = true).
        { apply elem_of_cons in Hu as [->|Hu].
          - destruct (by_total y y); done.
          - rewrite Forall_forall in Hy. by apply Hy. }
        assert (by_ x y = true); [|congruence].
        eapply same_key_right; [exact Htx|].
        eapply same_key_left; [exact Htu|exact Huy]. }
      assert (Hempty : filter (fun u => same_key by_ t u = true) (y :: ys) = []).
      { by apply filter_none. }
      by rewrite Hempty.
Qed.

Lemma foldl_sink ts : forall acc,
  StronglySorted (flip (accepts by_)) acc ->
  StronglySorted (flip (accepts by_))
    (foldl (fun acc x => sink by_ x acc) acc ts) /\
  foldl (fun acc x => sink by_ x acc) acc ts ≡ₚ ts ++ acc /\
  forall t, filter (fun u => same_key by_ t u = true)
                   (foldl (fun acc x => sink by_ x acc) acc ts)
            = filter (fun u => same_key by_ t u = true) acc
              ++ filter (fun u => same_key by_ t u = true) ts.
Proof.
  induction ts as [|x ts IH]; intros acc Hacc; simpl.
  - split; [done|]. split; [done|]. intros t. by rewrite app_nil_r.
  - destruct (IH (sink by_ x acc)) as (Hs & Hp & Hf); [by apply sink_sorted|].
    split; [done|]. split.
    + rewrite Hp, sink_Permutation. by rewrite Permutation_middle.
    + intros t. rewrite Hf, sink_same_key by done.
      rewrite (filter_cons _ x ts), (filter_cons _ x []), filter_nil, <- app_assoc.
      by case_decide.
Qed.

Lemma Sorted_ordered ts : Sorted (accepts by_) ts -> ordered by_ ts.
Proof.
  induction 1 as [|x ts Hts IH Hx]; intros i t1 t2 H1 H2; [done|].
  destruct i as [|i]; simpl in *.
  - injection H1 as <-. destruct Hx; [done|]. by injection H2 as <-.
  - eauto.
Qed.

(** [sunk] permutes its argument, puts it in order, and turns the order
    of the tasks that share a key around. *)
Lemma sunk_spec ts :
  sunk by_ ts ≡ₚ ts /\ ordered by_ (sunk by_ ts) /\
  forall t, filter (fun u => same_key by_ t u = true) (sunk by_ ts)
            = reverse (filter (fun u => same_key by_ t u = true) ts).
Proof.
  unfold sunk.
  destruct (foldl_sink ts []) as (Hs & Hp & Hf); [constructor|].
  split; [|split].
  - by rewrite reverse_Permutation, Hp, app_nil_r.
  - apply Sorted_ordered.
    apply StronglySorted_Sorted, Sorted_reverse in Hs. exact Hs.
  - intros t. by rewrite filter_reverse, Hf.
Qed.

End sinking.

(** Each of the four comparators of [sorters] accepts any two tasks in
    one order or the other, and is transitive. *)
Lemma sorters_total_trans name (by_ : Sort) :
  sorters !! name = Some by_ ->
  (forall x y, by_ x y = true \/ by_ y x = true) /\
  (forall x y z, by_ x y = true -> by_ y z = true -> by_ x z = true).
Proof.
  unfold sorters. intros H%elem_of_list_to_map_2.
  repeat (apply elem_of_cons in H as [[= -> ->]|H]);
    [..|by apply elem_of_nil in H];
    (split; [intros x y|intros x y z]);
    rewrite ?Z.geb_leb, ?Z.leb_le; lia.
Qed.

Lemma elems_Sort_Tasks pdqsort_long (by_ : Sort) s :
  elems (Sort_Tasks pdqsort_long by_ s) = sort_Sort pdqsort_long by_ (elems s).
Proof. by destruct s. Qed.

(** C1, as amended.  For each of the four sort presets and every slice
    of at most [maxInsertion] tasks, [Sort.Tasks] leaves a permutation
    of the tasks in which the comparator accepts every task and its
    successor. *)
Theorem Sort_Tasks_orders
    (pdqsort_long : Sort -> list Task -> list Task)
    (name : string) (by_ : Sort) (s : slice) :
  sorters !! name = Some by_ ->
  (length (elems s) <= maxInsertion)%nat ->
  elems (Sort_Tasks pdqsort_long by_ s) ≡ₚ elems s /\
  ordered by_ (elems (Sort_Tasks pdqsort_long by_ s)).
Proof.
  intros [Htotal Htrans]%sorters_total_trans Hlen.
  rewrite elems_Sort_Tasks, sort_Sort_sunk by done.
  destruct (sunk_spec by_ Htotal Htrans (elems s)) as (Hp & Ho & _). done.
Qed.

Lemma Sort_Tasks_orders_witness :
  sorters !! "dateAsc" = Some dateAsc /\
  (length (elems (mk_slice [task2; task0; task1])) <= maxInsertion)%nat /\
  elems (Sort_Tasks (fun _ ts => ts) dateAsc (mk_slice [task2; task0; task1]))
    ≡ₚ elems (mk_slice [task2; task0; task1]) /\
  ordered dateAsc
    (elems (Sort_Tasks (fun _ ts => ts) dateAsc (mk_slice [task2; task0; task1]))).
Proof.
  split; [reflexivity|]. split; [vm_compute; lia|].
  apply (Sort_Tasks_orders _ "dateAsc"); [reflexivity|vm_compute; lia].
Defined.

(** X12. On these slices the tasks that share a sort key come out in
    the reverse of the order they went in. *)
Lemma Sort_Tasks_reverses_equal_keys
    (pdqsort_long : Sort -> list Task -> list Task)
    (name : string) (by_ : Sort) (s : slice) (t : Task) :
  sorters !! name = Some by_ ->
  (length (elems s) <= maxInsertion)%nat ->
  filter (fun u => same_key by_ t u = true) (elems (Sort_Tasks pdqsort_long by_ s))
  = reverse (filter (fun u => same_key by_ t u = true) (elems s)).
Proof.
  intros [Htotal Htrans]%sorters_total_trans Hlen.
  rewrite elems_Sort_Tasks, sort_Sort_sunk by done.
  by destruct (sunk_spec by_ Htotal Htrans (elems s)) as (_ & _ & Hr).
Qed.

(** C1, as stated, fails whatever the library does with long slices:
    two tasks with the same date change places under [dateAsc]. *)
Lemma Sort_Tasks_not_stable :
  ~ exists pdqsort_long : Sort -> list Task -> list Task,
      forall (name : string) (by_ : Sort) (s : slice),
        sorters !! name = Some by_ ->
        stable by_ (elems s) (elems (Sort_Tasks pdqsort_long by_ s)).
Proof.
  intros [pdqsort_long H].
  specialize (H "dateAsc" dateAsc (mk_slice [task0; task1]) eq_refl task0).
  vm_compute in H. discriminate H.
Qed.

(** * Instances *)

Lemma Create_IDs_increase_witness :
  Z.of_nat (length [OpCreate "a"; OpCreate ""; OpCreate "b"; OpDelete 1;
                    OpCreate "c"]) <= int_max /\
  IDs_of_run [OpCreate "a"; OpCreate ""; OpCreate "b"; OpDelete 1; OpCreate "c"]
  = [0; 1; 2].
Proof.
  split; [vm_compute; discriminate|].
  destruct (Create_IDs_increase
              [OpCreate "a"; OpCreate ""; OpCreate "b"; OpDelete 1; OpCreate "c"])
    as (Hids & _ & _); [vm_compute; discriminate|].
  rewrite Hids. reflexivity.
Defined.

Lemma Delete_removes_exactly_witness :
  NoDup (ID <$> elems (tasks three_tasks)) /\
  exists m',
    Delete three_tasks 1 = (m', None) /\
    elems (tasks m') = [task0; task2] /\
    Find m' 1 = None /\
    Delete m' 1 = (m', Some ErrDeleteUnknown).
Proof.
  assert (Hnd : NoDup (ID <$> elems (tasks three_tasks))).
  { apply (bool_decide_unpack _). vm_compute. exact I. }
  split; [exact Hnd|].
  destruct (Delete_removes_exactly three_tasks 1 Hnd)
    as [[_ Hfail]|(l1 & t & l2 & m' & _ & _ & Hdel & _ & _ & Hfind & Hagain)].
  - vm_compute in Hfail. discriminate Hfail.
  - exists m'. split; [exact Hdel|].
    split; [|by split].
    vm_compute in Hdel. injection Hdel as <-. reflexivity.
Defined.

Lemma Update_frame_witness :
  Update three_tasks (mkTask 1 "b, again" 9 "note" 2 true)
  = ({| tasks := mk_slice [task0; mkTask 1 "b, again" 9 "note" 2 true; task2];
        nextID := 3 |}, None) /\
  ID <$> [task0; mkTask 1 "b, again" 9 "note" 2 true; task2]
  = ID <$> [task0; task1; task2].
Proof.
  split; [reflexivity|].
  exact (proj1 (Update_frame three_tasks _ (mkTask 1 "b, again" 9 "note" 2 true)
                  eq_refl)).
Defined.

Lemma readAll_null_or_empty_array_witness :
  written (readAll (fun _ ts => ts) NewManager (GET Path ∅))
  = tasks_body json_null /\
  written (readAll (fun _ ts => ts)
             {| tasks := mk_slice [task0; task1]; nextID := 2 |}
             (GET Path {[ "filter" := ["isDone"] ]}))
  = tasks_body json_null /\
  written (readAll (fun _ ts => ts)
             (run NewManager [OpCreate "a"; OpDelete 0]).1 (GET Path ∅))
  = tasks_body (json_array []).
Proof.
  split; [|split].
  - apply (readAll_null_or_empty_array (fun _ ts => ts) NewManager (GET Path ∅)).
    left. reflexivity.
  - apply (readAll_null_or_empty_array (fun _ ts => ts)
             {| tasks := mk_slice [task0; task1]; nextID := 2 |}
             (GET Path {[ "filter" := ["isDone"] ]})).
    right. exists (fun t => Done t). split; [reflexivity|].
    intros t Ht. simpl in Ht.
    apply elem_of_cons in Ht as [->|Ht]; [reflexivity|].
    apply elem_of_cons in Ht as [->|Ht]; [reflexivity|].
    by apply elem_of_nil in Ht.
  - apply (readAll_null_or_empty_array (fun _ ts => ts)
             (run NewManager [OpCreate "a"; OpDelete 0]).1 (GET Path ∅));
      reflexivity.
Defined.

(** ** The requests of the handler tests, on one manager *)

Example requests_of_the_tests :
  (serve (fun _ ts => ts) NewManager
     [POST "new"; GET "/task/0" ∅; GET "/task/wrongID" ∅; GET "/task/-1" ∅;
      PUT "/task/0" (JSON (mkTask 1 "x" 0 "" 0 false));
      PUT "/task/5" (JSON (mkTask 5 "x" 0 "" 0 false));
      DELETE "/task/wrongID"; DELETE "/task/0"; GET "/task/0" ∅;
      mkRequest "UNKNOWN" Path ∅ BadJSON]).2
  = [mkResponse 200 None no_body;
     mkResponse 200 (Some "application/json")
       (task_body (mkTask 0 "new" 0 "" 0 false));
     http_Error (error_text 400 ErrAtoi) 400;
     http_Error (error_text 404 (ErrNoSuchTask (-1))) 404;
     http_Error (error_text 400 ErrInconsistentIDs) 400;
     http_Error (error_text 404 (ErrNoSuchTask 5)) 404;
     http_Error (error_text 400 ErrAtoi) 400;
     mkResponse 200 None no_body;
     http_Error (error_text 404 (ErrNoSuchTask 0)) 404;
     http_Error (error_text 400 (ErrNotImplemented "UNKNOWN")) 400].
Proof. vm_compute. reflexivity. Qed.

Example run_example :
  run NewManager [OpCreate "a"; OpCreate ""; OpCreate "b"; OpDelete 0; OpCount; OpFind 1]
  = ({| tasks := mk_slice [task1]; nextID := 2 |},
     [OutCreate (inr task0);
      OutCreate (inl ErrCreateEmptyTitle);
      OutCreate (inr task1);
      OutDelete None; OutCount 1;
      OutFind (Some task1)]).
Proof. vm_compute. reflexivity. Qed.

(** * Further properties of the manager *)

(** [Find] returns the first stored task with the identifier. *)
Lemma Find_head m id :
  Find m id = head (filter (fun t => ID t = id) (elems (tasks m))).
Proof.
  unfold Find, first_with_ID. induction (elems (tasks m)) as [|t ts IH]; [done|].
  simpl. rewrite filter_cons. case_decide; [done|].
  rewrite <- IH. by destruct (list_find _ ts) as [[??]|].
Qed.

(** X1. After a [Create] with a non-empty title, [Find] returns what it
    returned before for every identifier that was stored, the new task
    for the identifier the counter stood at when none was stored under
    it, and nothing for any other identifier. *)
Theorem Find_after_Create (m : inMemory) (title : string) (id : Z) :
  title <> "" ->
  Find (Create m title).1 id
  = match Find m id with
    | Some t => Some t
    | None => if decide (nextID m = id) then Some (new_task m title) else None
    end.
Proof.
  intros Htitle. unfold Create. destruct (decide (title = "")); [done|].
  rewrite !Find_head. simpl. rewrite filter_app, head_app.
  destruct (head (filter _ (elems (tasks m)))); [done|].
  rewrite filter_cons. simpl. by case_decide.
Qed.

Lemma Find_after_Create_witness :
  "d" <> "" /\
  Find (Create three_tasks "d").1 3 = Some (mkTask 3 "d" 0 "" 0 false) /\
  Find (Create three_tasks "d").1 1 = Some task1 /\
  Find (Create three_tasks "d").1 4 = None.
Proof.
  split; [discriminate|].
  split; [|split].
  - rewrite (Find_after_Create three_tasks "d" 3) by discriminate. reflexivity.
  - rewrite (Find_after_Create three_tasks "d" 1) by discriminate. reflexivity.
  - rewrite (Find_after_Create three_tasks "d" 4) by discriminate. reflexivity.
Defined.

(** X2. After a successful [Update], [Find] returns the argument for its
    identifier and what it returned before for every other one. *)
Theorem Find_after_Update (m m' : inMemory) (task : Task) (id : Z) :
  Update m task = (m', None) ->
  Find m' id = if decide (id = ID task) then Some task else Find m id.
Proof.
  intros (i & old & E & Ht & _)%Update_ok.
  pose proof E as (Hsplit & _ & Hbefore)%first_with_ID_split.
  pose proof E as (Hi & Hold & _)%first_with_ID_Some.
  rewrite !Find_head, Ht. simpl.
  rewrite insert_take_drop by (by eapply lookup_lt_Some).
  set (l1 := take i (elems (tasks m))) in *.
  set (l2 := drop (S i) (elems (tasks m))) in *.
  rewrite Hsplit, !filter_app, !filter_cons, !head_app.
  case_decide as Hid.
  - subst id. rewrite (filter_none _ l1) by done. simpl.
    by rewrite decide_True.
  - rewrite !decide_False by congruence. done.
Qed.

Lemma Find_after_Update_witness :
  Update three_tasks (mkTask 1 "b2" 4 "n" 1 true)
  = ({| tasks := mk_slice [task0; mkTask 1 "b2" 4 "n" 1 true; task2];
        nextID := 3 |}, None) /\
  Find {| tasks := mk_slice [task0; mkTask 1 "b2" 4 "n" 1 true; task2];
          nextID := 3 |} 2
  = if decide (2 = ID (mkTask 1 "b2" 4 "n" 1 true)) then Some (mkTask 1 "b2" 4 "n" 1 true)
    else Find three_tasks 2.
Proof.
  split; [reflexivity|].
  apply (Find_after_Update three_tasks _ (mkTask 1 "b2" 4 "n" 1 true)). reflexivity.
Defined.

(** X3. After a successful [Delete] of one identifier, [Find] returns
    for every other identifier what it returned before. *)
Theorem Find_after_Delete_other (m m' : inMemory) (id id' : Z) :
  Delete m id = (m', None) -> id' <> id ->
  Find m' id' = Find m id'.
Proof.
  unfold Delete.
  destruct (first_with_ID id (elems (tasks m))) as [[i t]|] eqn:E; [|done].
  intros [= <-] Hne.
  pose proof E as (Hsplit & _ & _)%first_with_ID_split.
  pose proof E as (_ & Hid & _)%first_with_ID_Some.
  rewrite !Find_head. simpl.
  set (l1 := take i (elems (tasks m))) in *.
  set (l2 := drop (S i) (elems (tasks m))) in *.
  rewrite Hsplit, !filter_app, filter_cons.
  by rewrite decide_False by congruence.
Qed.

Lemma Find_after_Delete_other_witness :
  Delete three_tasks 1
  = ({| tasks := mk_slice [task0; task2]; nextID := 3 |}, None) /\
  2 <> 1 /\
  Find {| tasks := mk_slice [task0; task2]; nextID := 3 |} 2 = Find three_tasks 2.
Proof.
  split; [reflexivity|]. split; [discriminate|].
  apply (Find_after_Delete_other three_tasks _ 1 2); [reflexivity|discriminate].
Defined.

(** X4. [Update] and [Delete] fail exactly when [Find] finds nothing
    under the identifier, and then with their own error and no other. *)
Theorem Update_Delete_fail_as_Find_does (m : inMemory) (task : Task) (id : Z) :
  (Update m task).2
  = match Find m (ID task) with Some _ => None | None => Some ErrUpdateUnknown end
  /\
  (Delete m id).2
  = match Find m id with Some _ => None | None => Some ErrDeleteUnknown end.
Proof.
  unfold Update, Delete, Find. split.
  - by destruct (first_with_ID (ID task) _) as [[??]|].
  - by destruct (first_with_ID id _) as [[??]|].
Qed.

(** X5. A successful [Update] repeated with the same task succeeds again
    and changes nothing. *)
Theorem Update_twice (m m' : inMemory) (task : Task) :
  Update m task = (m', None) -> Update m' task = (m', None).
Proof.
  intros (i & old & E & Ht & Hn)%Update_ok.
  unfold Update. rewrite Ht. simpl.
  erewrite first_with_ID_insert by done.
  rewrite list_insert_insert_eq. destruct m' as [ts n]. simpl in *. by subst.
Qed.

Lemma Update_twice_witness :
  Update three_tasks (mkTask 2 "c2" 0 "" 0 false)
  = ({| tasks := mk_slice [task0; task1; mkTask 2 "c2" 0 "" 0 false];
        nextID := 3 |}, None) /\
  Update {| tasks := mk_slice [task0; task1; mkTask 2 "c2" 0 "" 0 false];
            nextID := 3 |} (mkTask 2 "c2" 0 "" 0 false)
  = ({| tasks := mk_slice [task0; task1; mkTask 2 "c2" 0 "" 0 false];
        nextID := 3 |}, None).
Proof.
  split; [reflexivity|].
  apply (Update_twice three_tasks). reflexivity.
Defined.

(** X6. In every manager that fewer than 2^63 calls have made from a new
    one, the stored identifiers are pairwise distinct, each is at least
    0 and below the counter, and the counter is the number of [Create]s
    that succeeded. *)
Theorem run_keeps_IDs_fresh (ops : list op) :
  Z.of_nat (length ops) <= int_max ->
  NoDup (ID <$> elems (tasks (run NewManager ops).1)) /\
  Forall (fun z => 0 <= z < nextID (run NewManager ops).1)
         (ID <$> elems (tasks (run NewManager ops).1)) /\
  nextID (run NewManager ops).1 = Z.of_nat (length (IDs_of_run ops)).
Proof.
  intros Hlen.
  destruct (run_fresh ops 0 NewManager) as [(Hn & Hnd & Hlt) _];
    [apply fresh_below_NewManager|done|].
  unfold IDs_of_run. rewrite Hn. done.
Qed.

Lemma run_keeps_IDs_fresh_witness :
  Z.of_nat (length [OpCreate "a"; OpCreate "b"; OpDelete 0; OpCreate "c"]) <= int_max /\
  NoDup (ID <$> elems (tasks (run NewManager
           [OpCreate "a"; OpCreate "b"; OpDelete 0; OpCreate "c"]).1)) /\
  nextID (run NewManager [OpCreate "a"; OpCreate "b"; OpDelete 0; OpCreate "c"]).1 = 3.
Proof.
  split; [vm_compute; discriminate|].
  destruct (run_keeps_IDs_fresh
              [OpCreate "a"; OpCreate "b"; OpDelete 0; OpCreate "c"])
    as (Hnd & _ & Hn); [vm_compute; discriminate|].
  split; [exact Hnd|]. rewrite Hn. reflexivity.
Defined.

(** X7. In such a manager no task is stored under the identifier the
    counter stands at, so the task a [Create] with a non-empty title
    stores is the one [Find] returns for it afterwards. *)
Theorem Create_then_Find (ops : list op) (title : string) :
  Z.of_nat (length ops) <= int_max -> title <> "" ->
  Find (run NewManager ops).1 (nextID (run NewManager ops).1) = None /\
  Find (Create (run NewManager ops).1 title).1 (nextID (run NewManager ops).1)
  = Some (new_task (run NewManager ops).1 title).
Proof.
  intros Hlen Htitle.
  destruct (run_fresh ops 0 NewManager) as [(Hn & _ & Hlt) _];
    [apply fresh_below_NewManager|done|].
  set (m := (run NewManager ops).1) in *.
  assert (Hnone : Find m (nextID m) = None).
  { apply Find_None. intros t Ht Heq.
    rewrite Forall_forall in Hlt.
    specialize (Hlt (ID t) (list_elem_of_fmap_2 ID _ _ Ht)). lia. }
  split; [done|].
  unfold Create. destruct (decide (title = "")); [done|].
  rewrite Find_head. simpl. rewrite filter_app, head_app.
  rewrite Find_head in Hnone. rewrite Hnone.
  rewrite filter_cons. simpl. by rewrite decide_True.
Qed.

Lemma Create_then_Find_witness :
  Z.of_nat (length [OpCreate "a"; OpDelete 0]) <= int_max /\ "b" <> "" /\
  Find (Create (run NewManager [OpCreate "a"; OpDelete 0]).1 "b").1
       (nextID (run NewManager [OpCreate "a"; OpDelete 0]).1)
  = Some (mkTask 1 "b" 0 "" 0 false).
Proof.
  split; [vm_compute; discriminate|]. split; [discriminate|].
  destruct (Create_then_Find [OpCreate "a"; OpDelete 0] "b") as [_ H];
    [vm_compute; discriminate|discriminate|].
  rewrite H. reflexivity.
Defined.

(** * Further properties of filtering and sorting *)

(** X8. [Filter.Tasks] returns the tasks the predicate accepts, in the
    order they had, and it returns the nil slice exactly when the
    predicate accepts none. *)
Theorem Filter_Tasks_keeps (f : Filter) (s : slice) :
  elems (Filter_Tasks f s) = filter (fun t => f t = true) (elems s) /\
  (Filter_Tasks f s = nil_slice <-> forall t, t ∈ elems s -> f t = false).
Proof.
  split; [apply Filter_Tasks_elems|]. split; [|apply Filter_Tasks_nil].
  unfold Filter_Tasks. rewrite Filter_Tasks_foldl.
  destruct (filter _ (elems s)) as [|x kept] eqn:E; [|done].
  intros _ t Ht. destruct (f t) eqn:Eft; [|done].
  by destruct (filter_nil_not_elem_of _ _ t E Eft).
Qed.

Lemma filter_twice {A} (P : A -> Prop) `{forall x, Decision (P x)} (l : list A) :
  filter P (filter P l) = filter P l.
Proof.
  induction l as [|x l IH]; [done|].
  rewrite filter_cons. case_decide; [|done].
  rewrite filter_cons, decide_True by done. by rewrite IH.
Qed.

(** X9. Filtering a filtered slice again with the same predicate
    returns it as it is. *)
Theorem Filter_Tasks_twice (f : Filter) (s : slice) :
  Filter_Tasks f (Filter_Tasks f s) = Filter_Tasks f s.
Proof.
  unfold Filter_Tasks at 1 3. rewrite !Filter_Tasks_foldl, Filter_Tasks_elems.
  rewrite filter_twice. by destruct (filter _ (elems s)).
Qed.

(** X10. The presets [isDone] and [isNotDone] split every slice: each
    task is in the result of exactly one of them. *)
Theorem isDone_isNotDone_split :
  exists d nd : Filter,
    filters !! "isDone" = Some d /\ filters !! "isNotDone" = Some nd /\
    forall s : slice,
      elems (Filter_Tasks d s) ++ elems (Filter_Tasks nd s) ≡ₚ elems s /\
      forall t, ~ (t ∈ elems (Filter_Tasks d s) /\ t ∈ elems (Filter_Tasks nd s)).
Proof.
  exists (fun t => Done t), (fun t => negb (Done t)).
  split; [reflexivity|]. split; [reflexivity|].
  intros s. rewrite !Filter_Tasks_elems. split.
  - induction (elems s) as [|t ts IH]; [done|].
    rewrite !filter_cons. destruct (Done t); simpl.
    + by rewrite IH.
    + by rewrite <- Permutation_middle, IH.
  - intros t [[H1 _]%list_elem_of_filter [H2 _]%list_elem_of_filter].
    simpl in *. by rewrite H1 in H2.
Qed.

Lemma foldl_sink_Permutation (by_ : Sort) ts : forall acc,
  foldl (fun acc x => sink by_ x acc) acc ts ≡ₚ ts ++ acc.
Proof.
  induction ts as [|x ts IH]; intros acc; [done|].
  simpl. by rewrite IH, sink_Permutation, Permutation_middle.
Qed.

(** X11. Whatever the comparator, [Sort.Tasks] on a slice of at most
    [maxInsertion] tasks returns the same tasks, each as often as it
    was there. *)
Theorem Sort_Tasks_permutes
    (pdqsort_long : Sort -> list Task -> list Task) (by_ : Sort) (s : slice) :
  (length (elems s) <= maxInsertion)%nat ->
  elems (Sort_Tasks pdqsort_long by_ s) ≡ₚ elems s.
Proof.
  intros Hlen. rewrite elems_Sort_Tasks, sort_Sort_sunk by done.
  unfold sunk. by rewrite reverse_Permutation, foldl_sink_Permutation, app_nil_r.
Qed.

Lemma Sort_Tasks_permutes_witness :
  (length (elems (mk_slice [task2; task0; task1])) <= maxInsertion)%nat /\
  elems (Sort_Tasks (fun _ ts => ts) (fun _ _ => true) (mk_slice [task2; task0; task1]))
    ≡ₚ elems (mk_slice [task2; task0; task1]).
Proof.
  split; [vm_compute; lia|].
  apply (Sort_Tasks_permutes (fun _ ts => ts) (fun _ _ => true)). vm_compute. lia.
Defined.

Lemma Sort_Tasks_reverses_equal_keys_witness :
  sorters !! "dateAsc" = Some dateAsc /\
  (length (elems (mk_slice [task0; task2; task1])) <= maxInsertion)%nat /\
  filter (fun u => same_key dateAsc task0 u = true)
         (elems (Sort_Tasks (fun _ ts => ts) dateAsc (mk_slice [task0; task2; task1])))
  = [task1; task0].
Proof.
  split; [reflexivity|]. split; [vm_compute; lia|].
  rewrite (Sort_Tasks_reverses_equal_keys (fun _ ts => ts) "dateAsc" dateAsc
             (mk_slice [task0; task2; task1]) task0);
    [reflexivity|reflexivity|vm_compute; lia].
Defined.

(** X13. Sorting such a slice twice with one preset puts the tasks that
    share a sort key back in the order they had before the first sort. *)
Theorem Sort_Tasks_twice_stable
    (pdqsort_long : Sort -> list Task -> list Task)
    (name : string) (by_ : Sort) (s : slice) :
  sorters !! name = Some by_ ->
  (length (elems s) <= maxInsertion)%nat ->
  stable by_ (elems s)
    (elems (Sort_Tasks pdqsort_long by_ (Sort_Tasks pdqsort_long by_ s))).
Proof.
  intros [Htotal Htrans]%sorters_total_trans Hlen t.
  destruct (sunk_spec by_ Htotal Htrans (elems s)) as (Hp & _ & Hr).
  rewrite !elems_Sort_Tasks, (sort_Sort_sunk _ _ (elems s)) by done.
  rewrite sort_Sort_sunk by (by rewrite Hp).
  destruct (sunk_spec by_ Htotal Htrans (sunk by_ (elems s))) as (_ & _ & Hr2).
  by rewrite Hr2, Hr, reverse_involutive.
Qed.

Lemma Sort_Tasks_twice_stable_witness :
  sorters !! "dateAsc" = Some dateAsc /\
  (length (elems (mk_slice [task0; task2; task1])) <= maxInsertion)%nat /\
  stable dateAsc (elems (mk_slice [task0; task2; task1]))
    (elems (Sort_Tasks (fun _ ts => ts) dateAsc
              (Sort_Tasks (fun _ ts => ts) dateAsc (mk_slice [task0; task2; task1])))).
Proof.
  split; [reflexivity|]. split; [vm_compute; lia|].
  apply (Sort_Tasks_twice_stable _ "dateAsc"); [reflexivity|vm_compute; lia].
Defined.

(** * Further properties of the handlers *)

Lemma Update_found m task old :
  Find m (ID task) = Some old -> exists m', Update m task = (m', None).
Proof.
  unfold Find, Update. destruct (first_with_ID _ _) as [[i t]|]; [eauto|done].
Qed.

Lemma Delete_found m id old :
  Find m id = Some old -> exists m', Delete m id = (m', None).
Proof.
  unfold Find, Delete. destruct (first_with_ID _ _) as [[i t]|]; [eauto|done].
Qed.

Lemma Delete_not_found m id :
  Find m id = None -> Delete m id = (m, Some ErrDeleteUnknown).
Proof.
  unfold Find, Delete. by destruct (first_with_ID _ _) as [[i t]|].
Qed.

(** [readAll] returns no error and calls [All] once. *)
Lemma readAll_shape pdqsort_long m r :
  readAll pdqsort_long m r
  = (None, written (readAll pdqsort_long m r),
     manager_after (readAll pdqsort_long m r), [OpAll]).
Proof.
  unfold written, manager_after, readAll.
  by destruct (filters !! _); destruct (sorters !! _).
Qed.

(** [RestAPI] takes one of the paths of [answer]. *)
Lemma RestAPI_answer pdqsort_long m r :
  answer pdqsort_long m r (RestAPI pdqsort_long m r).
Proof.
  unfold RestAPI.
  destruct (bool_decide (String.length Path < String.length (URLPath r))%nat)
    eqn:Hid;
    [apply bool_decide_eq_true in Hid|apply bool_decide_eq_false in Hid];
    repeat case_decide.
  - unfold read. destruct (parseID r) as [id|] eqn:Ep.
    + destruct (Find m id) as [t|] eqn:Ef; simpl.
      * by eapply read_found.
      * by eapply read_missing.
    + by apply read_bad_id.
  - unfold create, Create. destruct (Body r) as [|req] eqn:Eb; simpl.
    + by apply create_bad_body.
    + destruct (decide (Title req = "")) as [Et|Et]; simpl.
      * rewrite Et. by eapply create_empty_title.
      * by eapply create_done.
  - unfold update. destruct (parseID r) as [id|] eqn:Ep; [|by apply update_bad_id].
    destruct (Body r) as [|t] eqn:Eb; simpl; [by eapply update_bad_body|].
    destruct (decide (ID t <> id)) as [Hne|Heq]; simpl;
      [by eapply update_other_id|].
    assert (ID t = id) as <- by (by destruct (decide (ID t = id))).
    destruct (Find m (ID t)) as [old|] eqn:Ef; simpl; [|by eapply update_missing].
    destruct (Update_found _ _ _ Ef) as [m' Hu]. rewrite Hu. simpl.
    by eapply update_done.
  - unfold delete. destruct (parseID r) as [id|] eqn:Ep; [|by apply delete_bad_id].
    destruct (Find m id) as [old|] eqn:Ef.
    + destruct (Delete_found _ _ _ Ef) as [m' Hd]. rewrite Hd. simpl.
      by eapply delete_done.
    + rewrite (Delete_not_found _ _ Ef). simpl. by eapply delete_missing.
  - by apply not_implemented.
  - rewrite readAll_shape. by apply read_all.
  - unfold create, Create. destruct (Body r) as [|req] eqn:Eb; simpl.
    + by apply create_bad_body.
    + destruct (decide (Title req = "")) as [Et|Et]; simpl.
      * rewrite Et. by eapply create_empty_title.
      * by eapply create_done.
  - by apply update_no_id.
  - by apply delete_no_id.
  - by apply not_implemented.
Qed.

Ltac by_cases pdqsort_long m r :=
  destruct (RestAPI_answer pdqsort_long m r); simpl.

(** X14. [RestAPI] answers with status 200, 400, 404 or 500, and with
    500 exactly for a DELETE whose path carries an identifier that
    parses and that no stored task has. *)
Theorem RestAPI_status
    (pdqsort_long : Sort -> list Task -> list Task) (m : inMemory) (r : Request) :
  (StatusCode (RestAPI pdqsort_long m r).1.1 = 200 \/
   StatusCode (RestAPI pdqsort_long m r).1.1 = 400 \/
   StatusCode (RestAPI pdqsort_long m r).1.1 = 404 \/
   StatusCode (RestAPI pdqsort_long m r).1.1 = 500) /\
  (StatusCode (RestAPI pdqsort_long m r).1.1 = 500 <->
   Method r = "DELETE" /\ has_id r /\
   exists id, parseID r = Some id /\ Find m id = None).
Proof.
  by_cases pdqsort_long m r; (split; [auto|]);
    (split; [try discriminate|intros (Hm & Hhas & id' & Hp & Hf)]);
    try congruence; try done; eauto.
Qed.

(** X15. A request that is not answered with status 200 leaves the
    manager as it was. *)
Theorem RestAPI_failure_keeps_manager
    (pdqsort_long : Sort -> list Task -> list Task) (m : inMemory) (r : Request) :
  StatusCode (RestAPI pdqsort_long m r).1.1 <> 200 ->
  (RestAPI pdqsort_long m r).1.2 = m.
Proof. by by_cases pdqsort_long m r. Qed.

Lemma RestAPI_failure_keeps_manager_witness :
  StatusCode (RestAPI (fun _ ts => ts) three_tasks (DELETE "/task/9")).1.1 <> 200 /\
  (RestAPI (fun _ ts => ts) three_tasks (DELETE "/task/9")).1.2 = three_tasks.
Proof.
  split; [vm_compute; discriminate|].
  apply RestAPI_failure_keeps_manager. vm_compute. discriminate.
Defined.

(** X16. The manager a request leaves behind is the one its logged
    calls make of the manager it found, except for a list-all request
    with a sorter and no filter: that one leaves the manager's sequence
    sorted although it only calls [All]. *)
Theorem RestAPI_manager_of_calls
    (pdqsort_long : Sort -> list Task -> list Task) (m : inMemory) (r : Request) :
  (RestAPI pdqsort_long m r).1.2 = (run m (RestAPI pdqsort_long m r).2).1
  \/
  (Method r = "GET" /\ ~ has_id r /\
   filters !! Values_Get (URLQuery r) "filter" = None /\
   exists by_ : Sort,
     sorters !! Values_Get (URLQuery r) "sortBy" = Some by_ /\
     (RestAPI pdqsort_long m r).2 = [OpAll] /\
     (RestAPI pdqsort_long m r).1.2
     = {| tasks := Sort_Tasks pdqsort_long by_ (tasks m); nextID := nextID m |}).
Proof.
  by_cases pdqsort_long m r; try (by left).
  - destruct (filters !! Values_Get (URLQuery r) "filter") as [f|] eqn:Ef.
    { left. apply readAll_keeps_manager. rewrite Ef. eauto. }
    destruct (sorters !! Values_Get (URLQuery r) "sortBy") as [by_|] eqn:Es.
    + right. repeat split; try done. exists by_. repeat split; try done.
      by apply readAll_sorts_manager.
    + left. apply readAll_keeps_manager. by right.
  - left. unfold Create. by rewrite decide_False.
  - left. by rewrite Hupd.
  - left. by rewrite Delete_not_found.
  - left. by rewrite Hdel.
Qed.

Lemma readAll_nextID pdqsort_long m r :
  nextID (manager_after (readAll pdqsort_long m r)) = nextID m.
Proof.
  unfold manager_after, readAll.
  by destruct (filters !! _); destruct (sorters !! _).
Qed.

(** X17. Only a POST answered with status 200 moves the identifier
    counter, by one; every other request leaves it where it was. *)
Theorem RestAPI_nextID
    (pdqsort_long : Sort -> list Task -> list Task) (m : inMemory) (r : Request) :
  nextID (RestAPI pdqsort_long m r).1.2
  = if decide (Method r = "POST" /\ StatusCode (RestAPI pdqsort_long m r).1.1 = 200)
    then int_wrap (nextID m + 1) else nextID m.
Proof.
  by_cases pdqsort_long m r;
    try (rewrite decide_False by (intros [? ?]; congruence));
    try (by rewrite decide_True);
    try done.
  - apply readAll_nextID.
  - by apply Update_ok_IDs in Hupd as [_ ?].
  - by apply Delete_ok in Hdel as (? & _ & _ & ?).
Qed.

(** X18. A POST is answered with status 200 when its body decodes and
    the title is not empty, and then the manager has the new task, with
    the identifier of the counter and zero values in the other fields,
    behind the tasks it had; otherwise it is answered with status 400. *)
Theorem POST_creates
    (pdqsort_long : Sort -> list Task -> list Task) (m : inMemory) (r : Request) :
  Method r = "POST" ->
  (exists req, Body r = JSON req /\ Title req <> "" /\
     RestAPI pdqsort_long m r
     = (ok_response None no_body,
        {| tasks := mk_slice (elems (tasks m) ++ [new_task m (Title req)]);
           nextID := int_wrap (nextID m + 1) |},
        [OpCreate (Title req)]))
  \/
  (StatusCode (RestAPI pdqsort_long m r).1.1 = 400 /\
   (RestAPI pdqsort_long m r).1.2 = m /\
   (Body r = BadJSON \/ exists req, Body r = JSON req /\ Title req = "")).
Proof.
  intros Hm. by_cases pdqsort_long m r; try congruence.
  - right. auto.
  - right. split; [done|]. split; [done|]. right. eauto.
  - left. exists req. auto.
Qed.

Lemma POST_creates_witness :
  Method (POST "d") = "POST" /\
  RestAPI (fun _ ts => ts) three_tasks (POST "d")
  = (ok_response None no_body,
     {| tasks := mk_slice [task0; task1; task2; mkTask 3 "d" 0 "" 0 false];
        nextID := 4 |},
     [OpCreate "d"]).
Proof.
  split; [reflexivity|].
  destruct (POST_creates (fun _ ts => ts) three_tasks (POST "d") eq_refl)
    as [(req & Hb & _ & Hr)|(Hs & _)].
  - injection Hb as <-. rewrite Hr. reflexivity.
  - vm_compute in Hs. discriminate Hs.
Defined.

(** X19. A GET whose path carries an identifier leaves the manager as it
    was and answers 400 when the identifier does not parse, 404 when
    [Find] finds no task under it, and otherwise 200 with the task that
    [Find] returns. *)
Theorem GET_by_id
    (pdqsort_long : Sort -> list Task -> list Task) (m : inMemory) (r : Request) :
  Method r = "GET" -> has_id r ->
  (RestAPI pdqsort_long m r).1.2 = m /\
  (RestAPI pdqsort_long m r).1.1
  = match parseID r with
    | None => error_response 400 ErrAtoi
    | Some id =>
        match Find m id with
        | Some t => ok_response (Some "application/json") (task_body t)
        | None => error_response 404 (ErrNoSuchTask id)
        end
    end.
Proof.
  intros Hm Hhas. by_cases pdqsort_long m r; try congruence; try done.
  - by rewrite Hparse.
  - by rewrite Hparse, Hfind.
  - by rewrite Hparse, Hfind.
Qed.

Lemma GET_by_id_witness :
  Method (GET "/task/2" ∅) = "GET" /\ has_id (GET "/task/2" ∅) /\
  (RestAPI (fun _ ts => ts) three_tasks (GET "/task/2" ∅)).1.1
  = ok_response (Some "application/json") (task_body task2).
Proof.
  split; [reflexivity|]. split; [vm_compute; lia|].
  destruct (GET_by_id (fun _ ts => ts) three_tasks (GET "/task/2" ∅)) as [_ H];
    [reflexivity|vm_compute; lia|].
  rewrite H. reflexivity.
Defined.

Lemma Update_then_Find m task m' :
  Update m task = (m', None) -> Find m' (ID task) = Some task.
Proof.
  intros (i & old & E & Ht & _)%Update_ok. unfold Find. rewrite Ht. simpl.
  by erewrite first_with_ID_insert.
Qed.

(** X20. A PUT whose path carries an identifier is answered with status
    200 exactly when the identifier parses, the body decodes to a task
    with that identifier, and a task is stored under it; the manager
    then returns the task of the body for the identifier, and the
    identifiers of its tasks read as before. *)
Theorem PUT_replaces
    (pdqsort_long : Sort -> list Task -> list Task) (m : inMemory) (r : Request) :
  Method r = "PUT" -> has_id r ->
  (StatusCode (RestAPI pdqsort_long m r).1.1 = 200 <->
   exists t old, parseID r = Some (ID t) /\ Body r = JSON t /\
                 Find m (ID t) = Some old) /\
  (forall t, StatusCode (RestAPI pdqsort_long m r).1.1 = 200 -> Body r = JSON t ->
     Find (RestAPI pdqsort_long m r).1.2 (ID t) = Some t /\
     ID <$> elems (tasks (RestAPI pdqsort_long m r).1.2) = ID <$> elems (tasks m)).
Proof.
  intros Hm Hhas. by_cases pdqsort_long m r; try congruence; try done.
  - split; [split; [done|]|done].
    intros (t & old & Hp & _). congruence.
  - split; [split; [done|]|done].
    intros (t & old & _ & Hb & _). congruence.
  - split; [split; [done|]|done].
    intros (t' & old & Hp & Hb & _). congruence.
  - split; [split; [done|]|done].
    intros (t' & old & Hp & Hb & Hf). congruence.
  - split; [split; eauto|].
    intros t' _ Hb. assert (t' = t) as -> by congruence.
    split; [by eapply Update_then_Find|by apply Update_ok_IDs in Hupd as [? _]].
Qed.

Lemma PUT_replaces_witness :
  Method (PUT "/task/1" (JSON (mkTask 1 "b2" 4 "n" 1 true))) = "PUT" /\
  has_id (PUT "/task/1" (JSON (mkTask 1 "b2" 4 "n" 1 true))) /\
  Find (RestAPI (fun _ ts => ts) three_tasks
          (PUT "/task/1" (JSON (mkTask 1 "b2" 4 "n" 1 true)))).1.2 1
  = Some (mkTask 1 "b2" 4 "n" 1 true).
Proof.
  split; [reflexivity|]. split; [vm_compute; lia|].
  destruct (PUT_replaces (fun _ ts => ts) three_tasks
              (PUT "/task/1" (JSON (mkTask 1 "b2" 4 "n" 1 true))))
    as [_ H]; [reflexivity|vm_compute; lia|].
  apply (H (mkTask 1 "b2" 4 "n" 1 true)); reflexivity.
Defined.

(** X21. A DELETE request whose path is [/task/] is answered with
    status 200 and no body; no method of the manager is called and the
    manager stays as it was. *)
Theorem DELETE_without_identifier
    (pdqsort_long : Sort -> list Task -> list Task)
    (m : inMemory) (q : gmap string (list string)) (b : body) :
  RestAPI pdqsort_long m (mkRequest "DELETE" "/task/" q b)
  = ({| StatusCode := 200; ContentType := None; Payload := no_body |}, m, []).
Proof. reflexivity. Qed.

(** X26. The Content-Type of a response is text/plain when the status
    is not 200, application/json when a GET is answered with 200, and
    not set otherwise. *)
Theorem RestAPI_ContentType
    (pdqsort_long : Sort -> list Task -> list Task) (m : inMemory) (r : Request) :
  ContentType (RestAPI pdqsort_long m r).1.1
  = if decide (StatusCode (RestAPI pdqsort_long m r).1.1 = 200)
    then (if decide (Method r = "GET") then Some "application/json" else None)
    else Some "text/plain; charset=utf-8".
Proof.
  by_cases pdqsort_long m r; try done;
    rewrite ?decide_True by done; rewrite ?decide_False by congruence; done.
Qed.

(** X22. A list-all request whose filter and sorter names are none of
    those in [filters] and [sorters] (also when it gives none) is
    answered with the manager's whole sequence in the manager's order,
    and leaves the manager as it was. *)
Theorem readAll_unknown_names
    (pdqsort_long : Sort -> list Task -> list Task) (m : inMemory) (r : Request) :
  Values_Get (URLQuery r) "filter" ∉ ["isDone"; "isNotDone"; "isScheduled"] ->
  Values_Get (URLQuery r) "sortBy"
    ∉ ["dateAsc"; "dateDesc"; "priorityAsc"; "priorityDesc"] ->
  readAll pdqsort_long m r
  = (None, tasks_body (encode_tasks (tasks m)), m, [OpAll]).
Proof.
  intros Hf Hs. unfold readAll.
  assert (filters !! Values_Get (URLQuery r) "filter" = None) as ->
    by (apply not_elem_of_list_to_map_1; exact Hf).
  assert (sorters !! Values_Get (URLQuery r) "sortBy" = None) as ->
    by (apply not_elem_of_list_to_map_1; exact Hs).
  done.
Qed.

Lemma readAll_unknown_names_witness :
  readAll (fun _ ts => ts) three_tasks
    (GET Path {[ "filter" := ["done"]; "sortBy" := ["title"] ]})
  = (None, tasks_body (json_array [task0; task1; task2]), three_tasks, [OpAll]).
Proof.
  apply (readAll_unknown_names (fun _ ts => ts) three_tasks
           (GET Path {[ "filter" := ["done"]; "sortBy" := ["title"] ]}));
    apply (bool_decide_unpack _); vm_compute; exact I.
Defined.

(** X23. A list-all request with a filter preset and a sort preset, on
    a manager of at most [maxInsertion] tasks, is answered with the
    tasks the filter accepts, ordered by the comparator, and leaves the
    manager as it was. *)
Theorem readAll_filter_then_sort
    (pdqsort_long : Sort -> list Task -> list Task) (m : inMemory) (r : Request)
    (f : Filter) (by_ : Sort) :
  filters !! Values_Get (URLQuery r) "filter" = Some f ->
  sorters !! Values_Get (URLQuery r) "sortBy" = Some by_ ->
  (length (elems (tasks m)) <= maxInsertion)%nat ->
  exists s : slice,
    written (readAll pdqsort_long m r) = tasks_body (encode_tasks s) /\
    elems s ≡ₚ filter (fun t => f t = true) (elems (tasks m)) /\
    ordered by_ (elems s) /\
    manager_after (readAll pdqsort_long m r) = m.
Proof.
  intros Hf Hs Hlen. unfold readAll, written, manager_after, All.
  rewrite Hf, Hs. simpl.
  exists (Sort_Tasks pdqsort_long by_ (Filter_Tasks f (tasks m))).
  split; [done|].
  apply sorters_total_trans in Hs as [Htotal Htrans].
  assert (Hshort : (length (elems (Filter_Tasks f (tasks m))) <= maxInsertion)%nat).
  { rewrite Filter_Tasks_elems.
    pose proof (length_filter (fun t => f t = true) (elems (tasks m))). lia. }
  rewrite elems_Sort_Tasks, sort_Sort_sunk by done.
  destruct (sunk_spec by_ Htotal Htrans (elems (Filter_Tasks f (tasks m))))
    as (Hp & Ho & _).
  rewrite Filter_Tasks_elems in Hp at 2. done.
Qed.

Lemma readAll_filter_then_sort_witness :
  filters !! Values_Get (URLQuery (GET Path {[ "filter" := ["isNotDone"];
                                               "sortBy" := ["dateAsc"] ]})) "filter"
  = Some (fun t => negb (Done t)) /\
  manager_after (readAll (fun _ ts => ts) three_tasks
                   (GET Path {[ "filter" := ["isNotDone"]; "sortBy" := ["dateAsc"] ]}))
  = three_tasks.
Proof.
  split; [reflexivity|].
  destruct (readAll_filter_then_sort (fun _ ts => ts) three_tasks
              (GET Path {[ "filter" := ["isNotDone"]; "sortBy" := ["dateAsc"] ]})
              (fun t => negb (Done t)) dateAsc) as (s & _ & _ & _ & H);
    [reflexivity|reflexivity|vm_compute; lia|exact H].
Defined.

Lemma sort_Sort_Permutation pdqsort_long (by_ : Sort) ts :
  (forall (b : Sort) l, pdqsort_long b l ≡ₚ l) ->
  sort_Sort pdqsort_long by_ ts ≡ₚ ts.
Proof.
  intros Hlong. unfold sort_Sort.
  destruct (length ts <=? 1)%nat; [done|].
  destruct (length ts <=? maxInsertion)%nat; [|apply Hlong].
  rewrite insertionSort_sunk. unfold sunk.
  by rewrite reverse_Permutation, foldl_sink_Permutation, app_nil_r.
Qed.

Lemma readAll_Permutation pdqsort_long m r :
  (forall (b : Sort) l, pdqsort_long b l ≡ₚ l) ->
  elems (tasks (manager_after (readAll pdqsort_long m r))) ≡ₚ elems (tasks m).
Proof.
  intros Hlong. unfold manager_after, readAll, All.
  destruct (filters !! _); destruct (sorters !! _); simpl; try done.
  rewrite elems_Sort_Tasks. by apply sort_Sort_Permutation.
Qed.

Lemma fresh_below_Permutation k m m' :
  fresh_below k m ->
  elems (tasks m') ≡ₚ elems (tasks m) -> nextID m' = nextID m ->
  fresh_below k m'.
Proof.
  intros (? & ? & ?) Hp Hn. unfold fresh_below. by rewrite Hp, Hn.
Qed.

(** One request keeps the invariant and hands out at most one identifier. *)
Lemma RestAPI_fresh pdqsort_long k m r :
  (forall (b : Sort) l, pdqsort_long b l ≡ₚ l) ->
  fresh_below k m -> Z.of_nat k < int_max ->
  exists k', (k <= k' <= S k)%nat /\ fresh_below k' (RestAPI pdqsort_long m r).1.2.
Proof.
  intros Hlong Hinv Hk.
  by_cases pdqsort_long m r; try (exists k; split; [lia|done]).
  - exists k. split; [lia|].
    eapply fresh_below_Permutation;
      [done|by apply readAll_Permutation|apply readAll_nextID].
  - exists (S k). split; [lia|].
    destruct (step_fresh k m (OpCreate (Title req))
                {| tasks := append (tasks m) (new_task m (Title req));
                   nextID := int_wrap (nextID m + 1) |}
                (OutCreate (inr (new_task m (Title req)))) Hinv Hk) as [H _].
    { simpl. unfold Create. by rewrite decide_False. }
    simpl in H. by rewrite Nat.add_1_r in H.
  - exists k. split; [lia|].
    apply Update_ok_IDs in Hupd as [? ?]. by eapply fresh_below_same_IDs.
  - exists k. split; [lia|].
    destruct (step_fresh k m (OpDelete id) m' (OutDelete None) Hinv Hk) as [H _].
    { simpl. by rewrite Hdel. }
    simpl in H. by rewrite Nat.add_0_r in H.
Qed.

Lemma serve_cons pdqsort_long m r rs :
  (serve pdqsort_long m (r :: rs)).1
  = (serve pdqsort_long (RestAPI pdqsort_long m r).1.2 rs).1.
Proof.
  simpl. destruct (RestAPI pdqsort_long m r) as [[w m1] c]. simpl.
  by destruct (serve pdqsort_long m1 rs).
Qed.

Lemma serve_fresh pdqsort_long rs : forall k m,
  (forall (b : Sort) l, pdqsort_long b l ≡ₚ l) ->
  fresh_below k m -> Z.of_nat (k + length rs) <= int_max ->
  exists k', fresh_below k' (serve pdqsort_long m rs).1.
Proof.
  induction rs as [|r rs IH]; intros k m Hlong Hinv Hlen; [by exists k|].
  rewrite serve_cons. simpl in Hlen.
  destruct (RestAPI_fresh pdqsort_long k m r Hlong Hinv) as (k1 & Hk1 & Hinv1);
    [lia|].
  apply (IH k1); [done|done|lia].
Qed.

(** X24. Provided the library returns a long slice with the same tasks
    it was given, every manager that fewer than 2^63 requests have made
    from a new one stores pairwise distinct identifiers, each at least 0
    and below the counter, sorted listings included. *)
Theorem serve_keeps_IDs_fresh
    (pdqsort_long : Sort -> list Task -> list Task) (rs : list Request) :
  (forall (b : Sort) l, pdqsort_long b l ≡ₚ l) ->
  Z.of_nat (length rs) <= int_max ->
  NoDup (ID <$> elems (tasks (serve pdqsort_long NewManager rs).1)) /\
  Forall (fun z => 0 <= z < nextID (serve pdqsort_long NewManager rs).1)
         (ID <$> elems (tasks (serve pdqsort_long NewManager rs).1)).
Proof.
  intros Hlong Hlen.
  destruct (serve_fresh pdqsort_long rs 0 NewManager Hlong) as (k & Hn & Hnd & Hlt);
    [apply fresh_below_NewManager|done|].
  rewrite Hn. done.
Qed.

Lemma serve_keeps_IDs_fresh_witness :
  (forall (b : Sort) (l : list Task), (fun _ ts => ts) b l ≡ₚ l) /\
  NoDup (ID <$> elems (tasks (serve (fun _ ts => ts) NewManager
           [POST "a"; POST "b"; GET Path {[ "sortBy" := ["dateDesc"] ]};
            DELETE "/task/0"; POST "c"]).1)).
Proof.
  split; [done|].
  destruct (serve_keeps_IDs_fresh (fun _ ts => ts)
              [POST "a"; POST "b"; GET Path {[ "sortBy" := ["dateDesc"] ]};
               DELETE "/task/0"; POST "c"]) as [H _];
    [done|vm_compute; discriminate|exact H].
Defined.

(** X25. Behind [corsHeaders], an OPTIONS request is answered with
    status 200 and no body, without any call of the manager, where
    [RestAPI] itself answers it with 400; every other request gets the
    answer of [RestAPI]; and the three headers are set either way. *)
Theorem corsHeaders_RestAPI
    (pdqsort_long : Sort -> list Task -> list Task) (m : inMemory) (r : Request) :
  (Method r = "OPTIONS" ->
   corsHeaders (RestAPI pdqsort_long) m r
   = (cors_headers, ok_response None no_body, m, []) /\
   StatusCode (RestAPI pdqsort_long m r).1.1 = 400) /\
  (Method r <> "OPTIONS" ->
   corsHeaders (RestAPI pdqsort_long) m r
   = (cors_headers, (RestAPI pdqsort_long m r).1.1,
      (RestAPI pdqsort_long m r).1.2, (RestAPI pdqsort_long m r).2)).
Proof.
  unfold corsHeaders. split; intros Hm.
  - rewrite decide_True by done. split; [done|].
    by_cases pdqsort_long m r; congruence.
  - rewrite decide_False by done.
    by destruct (RestAPI pdqsort_long m r) as [[? ?] ?].
Qed.

Lemma corsHeaders_RestAPI_witness :
  corsHeaders (RestAPI (fun _ ts => ts)) three_tasks
    (mkRequest "OPTIONS" "/task/1" ∅ BadJSON)
  = (cors_headers, ok_response None no_body, three_tasks, []) /\
  StatusCode (RestAPI (fun _ ts => ts) three_tasks
                (mkRequest "OPTIONS" "/task/1" ∅ BadJSON)).1.1 = 400.
Proof.
  apply (corsHeaders_RestAPI (fun _ ts => ts) three_tasks
           (mkRequest "OPTIONS" "/task/1" ∅ BadJSON)).
  reflexivity.
Defined.
